(** * Françoise visualiser: a Rocq model of [Visualisation/visualiser.c]

    The program binds a UDP socket, reads datagrams of the form
    ["<rms>,<pitch>"], parses them with [strtok]/[atof]/[atoi] and repaints
    two 40-column bar gauges.

    Modelling choices
    - The POSIX branch of the source is modelled (no [_WIN32]); the code
      after [while (1)] is never reached and is left out.
    - [float] is IEEE-754 binary32 and [double] binary64, both as
      [spec_float] of the Standard Library with the operations of
      [SpecFloat] (round to nearest, ties to even); every [float]
      expression is evaluated in binary32 (FLT_EVAL_METHOD = 0).
    - [int] is 32 bits, [long] 64 bits (LP64).
    - Bytes are [ascii]; C strings live in a [list ascii] buffer and are
      addressed by an offset.  Reading or writing past the end of the
      buffer, converting a float that does not fit in an [int], and
      overflowing an [int] are undefined behaviour: the model then gives
      no result ([None], or the outcome [Undefined]).
    - The C library ([fmaxf], [fminf], [strtok], [atof], [atoi]) follows
      ISO C and, where ISO C leaves a choice, glibc: [strtod] rounds
      correctly, [strtol] clamps to the range of [long], and the conversion
      of a [long] to [int] keeps the low 32 bits.
    - The outside world is a record of answers: what [socket] and [bind]
      return and what each [recvfrom] finds.  A run is the trace of the
      actions of the process, in order. *)

From Stdlib Require Import ZArith Lia Ascii String.
From Stdlib Require Import DecimalString DecimalPos DecimalFacts.
From Stdlib Require Import QArith.QArith_base QArith.Qround QArith.Qminmax.
From Stdlib Require Import QArith.Qpower QArith.Qfield.
From Stdlib Require Import Floats.SpecFloat.
From stdpp Require Import base option list.

Local Open Scope Z_scope.

(** ** Bytes *)

Definition bytes (s : string) : list ascii := list_ascii_of_string s.

Definition NUL : ascii := "000"%char.

Definition code (c : ascii) : Z := Z.of_N (N_of_ascii c).

(** ** Floating point: binary32 and binary64 *)

Module F32.
Definition prec : Z := 24.
Definition emax : Z := 128.

Definition mul := SFmul prec emax.
Definition div := SFdiv prec emax.
Definition sub := SFsub prec emax.
Definition valid := valid_binary prec emax.

(** [(float) z] for an integer [z]. *)
Definition of_int (z : Z) : spec_float := binary_normalize prec emax z 0 false.

(** A decimal literal [n/d] with the suffix [f], rounded once. *)
Definition of_ratio (n d : positive) : spec_float :=
  SFdiv prec emax (S754_finite false n 0) (S754_finite false d 0).

(** [(float) x] for a double [x]. *)
Definition of_double (x : spec_float) : spec_float :=
  match x with
  | S754_finite s m e => binary_round prec emax s m e
  | _ => x
  end.
End F32.

Module F64.
Definition prec : Z := 53.
Definition emax : Z := 1024.
End F64.

Definition INT_MIN : Z := - 2 ^ 31.
Definition INT_MAX : Z := 2 ^ 31 - 1.

Definition in_int (z : Z) : bool := (INT_MIN <=? z) && (z <=? INT_MAX).

(** [(int) x]: the fractional part is discarded; the conversion is undefined
    when the integral part is not an [int] (ISO C 6.3.1.4), and for NaN and
    the infinities. *)
Definition trunc_mag (m : positive) (e : Z) : Z :=
  match e with
  | Z0 => Zpos m
  | Zpos k => Z.shiftl (Zpos m) (Zpos k)
  | Zneg k => Z.shiftr (Zpos m) (Zpos k)
  end.

Definition int_of_float (x : spec_float) : option Z :=
  match x with
  | S754_zero _ => Some 0
  | S754_finite s m e =>
      let z := if s then - trunc_mag m e else trunc_mag m e in
      if in_int z then Some z else None
  | S754_infinity _ | S754_nan => None
  end.

Definition is_nan (x : spec_float) : bool :=
  match x with S754_nan => true | _ => false end.

(** glibc: [fmaxf (x, y) = (isgreaterequal (x, y) || isnan (y)) ? x : y],
    [fminf (x, y) = (islessequal (x, y) || isnan (y)) ? x : y].

    [spec_float] has one NaN, and these two definitions give it the
    behaviour of a quiet NaN, the only kind [atof] can produce.  For a
    signalling NaN glibc returns [x + y], a NaN, from [fmaxf]; that case is
    not modelled, and the column count of the loudness bar is stated for
    loudness values that are not NaN. *)
Definition fmaxf (x y : spec_float) : spec_float :=
  if SFleb y x || is_nan y then x else y.

Definition fminf (x y : spec_float) : spec_float :=
  if SFleb x y || is_nan y then x else y.

(** ** The constants of the program *)

Definition MAX_RMS_FOR_BAR : spec_float := F32.of_ratio 4 10.
Definition BAR_WIDTH : Z := 40.
Definition PITCH_MIN_HZ : spec_float := F32.of_ratio 100 1.
Definition PITCH_MAX_HZ : spec_float := F32.of_ratio 1000 1.
Definition BAR_CHAR : ascii := "."%char.
Definition PORT : Z := 12345.
Definition EXIT_FAILURE : Z := 1.

Definition zerof : spec_float := S754_zero false.

(** ** The process: a trace of observable actions

    A run of the program is the list of the things it does to the outside
    world, in order.  [exit] stops the run; undefined behaviour stops it
    too; a [recvfrom] with no datagram left to deliver blocks. *)

Inductive action : Type :=
| Write (s : list ascii)              (* bytes sent to stdout *)
| Flush                               (* fflush (stdout) *)
| System (cmd : list ascii)           (* system (cmd) *)
| Perror (msg : list ascii)           (* diagnostic on stderr *)
| Socket (ret : Z)                    (* socket () returned ret *)
| Bind (fd : Z) (port : Z) (ret : Z)  (* bind (fd, ANY:port) returned ret *)
| Recvfrom (fd : Z) (size : Z) (ret : Z)
| Close (fd : Z)
| Exit (status : Z).

Definition trace := list action.

Inductive outcome (A : Type) : Type :=
| Done (a : A)
| Exited (status : Z)
| Blocked
| Undefined.
Arguments Done {A} a.
Arguments Exited {A} status.
Arguments Blocked {A}.
Arguments Undefined {A}.

Definition proc (A : Type) : Type := trace -> outcome A * trace.

Definition run {A} (m : proc A) (t : trace) : outcome A * trace := m t.

#[global] Instance proc_ret : MRet proc := fun A a t => (Done a, t).

#[global] Instance proc_bind : MBind proc := fun A B f m t =>
  match m t with
  | (Done a, t') => f a t'
  | (Exited c, t') => (Exited c, t')
  | (Blocked, t') => (Blocked, t')
  | (Undefined, t') => (Undefined, t')
  end.

Definition emit (a : action) : proc unit := fun t => (Done tt, t ++ [a]).
Definition undefined {A} : proc A := fun t => (Undefined, t).
Definition blocked {A} : proc A := fun t => (Blocked, t).

Definition lift {A} (o : option A) : proc A :=
  match o with Some a => mret a | None => undefined end.

(** stdio and stdlib *)
Definition printf (s : list ascii) : proc unit := emit (Write s).
Definition putchar (c : ascii) : proc unit := emit (Write [c]).
Definition fflush_stdout : proc unit := emit Flush.
Definition perror (msg : list ascii) : proc unit := emit (Perror msg).
Definition system (cmd : list ascii) : proc unit := emit (System cmd).
Definition exit {A} (status : Z) : proc A :=
  fun t => (Exited status, t ++ [Exit status]).

(** [for (int i = 0; i < bound; i++) body] *)
Fixpoint iterate (n : nat) (body : proc unit) : proc unit :=
  match n with
  | O => mret tt
  | S n' => body ;; iterate n' body
  end.

Definition for_upto (bound : Z) (body : proc unit) : proc unit :=
  iterate (Z.to_nat bound) body.

(** an [int] expression: overflow is undefined *)
Definition int_expr (z : Z) : proc Z :=
  if in_int z then mret z else undefined.

(** [%d] *)
Definition decimal (z : Z) : list ascii :=
  bytes (DecimalString.NilZero.string_of_int (Z.to_int z)).

(** ** The renderer *)

Definition clear_terminal : proc unit := system (bytes "clear").

Definition banner : list ascii :=
  bytes "---YOU ARE NOW CONNECTED TO FRAN" ++
  ["195"%char; "135"%char] ++ bytes "OISE---" ++ ["010"%char].

Definition newline : list ascii := ["010"%char].

(** [scaled_rms] and [rms_bar_length], lines 40-41 *)
Definition scaled_rms (rms_value : spec_float) : spec_float :=
  F32.div (fminf (fmaxf rms_value zerof) MAX_RMS_FOR_BAR) MAX_RMS_FOR_BAR.

Definition rms_bar_length (rms_value : spec_float) : option Z :=
  int_of_float (F32.mul (scaled_rms rms_value) (F32.of_int BAR_WIDTH)).

(** [scaled_pitch] and [pitch_bar_length], lines 52-57 *)
Definition scaled_pitch (pitch_value : Z) : spec_float :=
  if 0 <? pitch_value then
    let clamped :=
      fminf (fmaxf (F32.of_int pitch_value) PITCH_MIN_HZ) PITCH_MAX_HZ in
    F32.div (F32.sub clamped PITCH_MIN_HZ) (F32.sub PITCH_MAX_HZ PITCH_MIN_HZ)
  else zerof.

Definition pitch_bar_length (pitch_value : Z) : option Z :=
  int_of_float (F32.mul (scaled_pitch pitch_value) (F32.of_int BAR_WIDTH)).

Definition render_audio (rms_value : spec_float) (pitch_value : Z) : proc unit :=
  clear_terminal ;;
  printf banner ;;
  (* RMS bar *)
  rms_len ← lift (rms_bar_length rms_value) ;
  printf (bytes "RMS  : ") ;;
  for_upto rms_len (putchar BAR_CHAR) ;;
  rest ← int_expr (BAR_WIDTH - rms_len) ;
  for_upto rest (putchar " "%char) ;;
  printf newline ;;
  (* pitch bar *)
  pitch_len ← lift (pitch_bar_length pitch_value) ;
  printf (bytes "Pitch: ") ;;
  for_upto pitch_len (putchar BAR_CHAR) ;;
  rest ← int_expr (BAR_WIDTH - pitch_len) ;
  for_upto rest (putchar " "%char) ;;
  printf (bytes " " ++ decimal (if 0 <? pitch_value then pitch_value else 0)
            ++ bytes " Hz" ++ newline) ;;
  (* footer *)
  for_upto (BAR_WIDTH + 7) (putchar "-"%char) ;;
  printf newline ;;
  fflush_stdout.

(** What reaches the terminal: the bytes written to stdout, in order. *)
Fixpoint stdout_bytes (t : trace) : list ascii :=
  match t with
  | [] => []
  | Write s :: t' => s ++ stdout_bytes t'
  | _ :: t' => stdout_bytes t'
  end.

(** ** The C library on strings

    A [char *] is an offset into the buffer, [None] is the null pointer. *)

#[global] Instance ascii_eq_dec : EqDecision ascii := ascii_dec.

Record memory : Type := {
  buffer : list ascii;       (* char buffer[1024] of main *)
  olds : option nat          (* the pointer strtok saves between calls *)
}.

Definition load (buf : list ascii) (p : nat) : option ascii := buf !! p.

Definition store (buf : list ascii) (p : nat) (c : ascii) : option (list ascii) :=
  if decide (p < length buf)%nat then Some (<[p := c]> buf) else None.

(** The string that starts at the head of [l]: the bytes before the first
    NUL; there is none when [l] holds no NUL. *)
Fixpoint cstring (l : list ascii) : option (list ascii) :=
  match l with
  | [] => None
  | c :: r => if decide (c = NUL) then Some [] else (c ::.) <$> cstring r
  end.

Definition string_at (buf : list ascii) (p : nat) : option (list ascii) :=
  cstring (drop p buf).

(** [strspn]: length of the leading run of bytes that are in [accept]. *)
Fixpoint strspn (l accept : list ascii) : option nat :=
  match l with
  | [] => None
  | c :: r =>
      if decide (c = NUL) then Some O
      else if bool_decide (c ∈ accept) then S <$> strspn r accept
      else Some O
  end.

(** [strcspn]: length of the leading run of bytes that are not in [reject]. *)
Fixpoint strcspn (l reject : list ascii) : option nat :=
  match l with
  | [] => None
  | c :: r =>
      if decide (c = NUL) then Some O
      else if bool_decide (c ∈ reject) then Some O
      else S <$> strcspn r reject
  end.

(** [strtok (s, delim)], after glibc's [strtok_r] with the saved pointer
    [olds]. *)
Definition strtok (s : option nat) (delim : list ascii) (m : memory)
  : option (option nat * memory) :=
  s ← (match s with Some p => Some p | None => olds m end) ;
  let buf := buffer m in
  c ← load buf s ;
  if decide (c = NUL) then Some (None, {| buffer := buf; olds := Some s |})
  else
    k ← strspn (drop s buf) delim ;
    let s := (s + k)%nat in
    c ← load buf s ;
    if decide (c = NUL) then Some (None, {| buffer := buf; olds := Some s |})
    else
      j ← strcspn (drop s buf) delim ;
      let e := (s + j)%nat in
      c ← load buf e ;
      if decide (c = NUL) then Some (Some s, {| buffer := buf; olds := Some e |})
      else
        buf' ← store buf e NUL ;
        Some (Some s, {| buffer := buf'; olds := Some (S e) |}).

(** *** Numeric conversions *)

Definition isspace (c : ascii) : bool :=
  (code c =? 32) || ((9 <=? code c) && (code c <=? 13)).

Fixpoint skip_spaces (s : list ascii) : list ascii :=
  match s with
  | c :: r => if isspace c then skip_spaces r else s
  | [] => []
  end.

Definition read_sign (s : list ascii) : bool * list ascii :=
  match s with
  | c :: r =>
      if decide (c = "-"%char) then (true, r)
      else if decide (c = "+"%char) then (false, r)
      else (false, s)
  | [] => (false, s)
  end.

Definition digit_val (c : ascii) : option Z :=
  if (48 <=? code c) && (code c <=? 57) then Some (code c - 48) else None.

Definition hex_val (c : ascii) : option Z :=
  if (48 <=? code c) && (code c <=? 57) then Some (code c - 48)
  else if (97 <=? code c) && (code c <=? 102) then Some (code c - 87)
  else if (65 <=? code c) && (code c <=? 70) then Some (code c - 55)
  else None.

Definition tolower (c : ascii) : ascii :=
  if (65 <=? code c) && (code c <=? 90)
  then ascii_of_N (Z.to_N (code c + 32)) else c.

(** Reads digits of the given base: the number read on top of [acc], how
    many digits were read on top of [n], and what follows them. *)
Fixpoint read_digits (val : ascii -> option Z) (base : Z) (s : list ascii)
    (acc n : Z) : Z * Z * list ascii :=
  match s with
  | c :: r =>
      match val c with
      | Some d => read_digits val base r (acc * base + d) (n + 1)
      | None => (acc, n, s)
      end
  | [] => (acc, n, s)
  end.

(** digits, optionally with a point among them: the number without the
    point, the count of digits, the count of digits after the point, and
    what follows. *)
Definition read_mantissa (val : ascii -> option Z) (base : Z) (s : list ascii)
  : Z * Z * Z * list ascii :=
  let '(a, n1, r1) := read_digits val base s 0 0 in
  match r1 with
  | c :: r2 =>
      if decide (c = "."%char) then
        let '(a', n2, r3) := read_digits val base r2 a 0 in
        (a', n1 + n2, n2, r3)
      else (a, n1, 0, r1)
  | [] => (a, n1, 0, r1)
  end.

(** an exponent part: a mark, an optional sign, at least one decimal digit;
    0 when there is none. *)
Definition read_exponent (mark : ascii) (s : list ascii) : Z :=
  match s with
  | c :: r =>
      if decide (tolower c = mark) then
        let '(neg, r') := read_sign r in
        let '(v, n, _) := read_digits digit_val 10 r' 0 0 in
        if n =? 0 then 0 else if neg then - v else v
      else 0
  | [] => 0
  end.

(** [m * 10 ^ e], rounded to a double. *)
Definition double_of_decimal (neg : bool) (m e : Z) : spec_float :=
  match m with
  | Zpos p =>
      if 0 <=? e
      then binary_round F64.prec F64.emax neg (Z.to_pos (Zpos p * 10 ^ e)) 0
      else SFdiv F64.prec F64.emax
             (S754_finite neg p 0) (S754_finite false (Z.to_pos (10 ^ (- e))) 0)
  | _ => S754_zero neg
  end.

(** [m * 2 ^ e], rounded to a double. *)
Definition double_of_binary (neg : bool) (m e : Z) : spec_float :=
  match m with
  | Zpos p => binary_round F64.prec F64.emax neg p e
  | _ => S754_zero neg
  end.

Fixpoint prefix_nocase (p s : list ascii) : bool :=
  match p, s with
  | [], _ => true
  | a :: p', c :: s' => bool_decide (tolower c = a) && prefix_nocase p' s'
  | _ :: _, [] => false
  end.

Definition hex_float (neg : bool) (s : list ascii) : option spec_float :=
  match s with
  | z :: x :: r =>
      if bool_decide (z = "0"%char) && bool_decide (tolower x = "x"%char) then
        let '(m, n, nfrac, r') := read_mantissa hex_val 16 r in
        if n =? 0 then None
        else Some (double_of_binary neg m (read_exponent "p"%char r' - 4 * nfrac))
      else None
  | _ => None
  end.

Definition decimal_float (neg : bool) (s : list ascii) : spec_float :=
  let '(m, n, nfrac, r) := read_mantissa digit_val 10 s in
  if n =? 0 then zerof
  else double_of_decimal neg m (read_exponent "e"%char r - nfrac).

(** [strtod (s, NULL)] in the C locale (ISO C 7.22.1.3): white space, a
    sign, then an infinity, a NaN, a hexadecimal or a decimal number; zero
    when no number is found. *)
Definition strtod (s : list ascii) : spec_float :=
  let '(neg, r) := read_sign (skip_spaces s) in
  if prefix_nocase (bytes "inf") r then S754_infinity neg
  else if prefix_nocase (bytes "nan") r then S754_nan
  else match hex_float neg r with
       | Some x => x
       | None => decimal_float neg r
       end.

Definition LONG_MIN : Z := - 2 ^ 63.
Definition LONG_MAX : Z := 2 ^ 63 - 1.

(** [strtol (s, NULL, 10)]: out-of-range values are clamped. *)
Definition strtol (s : list ascii) : Z :=
  let '(neg, r) := read_sign (skip_spaces s) in
  let '(v, _, _) := read_digits digit_val 10 r 0 0 in
  Z.max LONG_MIN (Z.min LONG_MAX (if neg then - v else v)).

(** [(int) z] for a long [z]: reduced modulo [2 ^ 32]. *)
Definition int_of_long (z : Z) : Z := (z + 2 ^ 31) mod 2 ^ 32 - 2 ^ 31.

(** [atof (p)] is [strtod (p, NULL)]; [atoi (p)] is [(int) strtol (p, NULL, 10)]. *)
Definition atof (m : memory) (p : nat) : option spec_float :=
  strtod <$> string_at (buffer m) p.

Definition atoi (m : memory) (p : nat) : option Z :=
  (fun s => int_of_long (strtol s)) <$> string_at (buffer m) p.

(** ** The parser: lines 121-131 of [main] *)

Definition comma : list ascii := [","%char].

Definition parse_record (m : memory) : option (spec_float * Z * memory) :=
  '(token, m1) ← strtok (Some O) comma m ;
  match token with
  | Some p =>
      d ← atof m1 p ;
      let rms_value := F32.of_double d in
      '(token, m2) ← strtok None comma m1 ;
      match token with
      | Some q =>
          pitch_value ← atoi m2 q ;
          Some (rms_value, pitch_value, m2)
      | None => Some (rms_value, 0, m2)
      end
  | None => Some (zerof, 0, m1)
  end.

(** ** The receiver and [main] *)

Inductive arrival : Type :=
| Failure                            (* recvfrom fails *)
| Datagram (payload : list ascii).   (* a datagram is delivered *)

Record world : Type := {
  socket_ret : Z;             (* what socket () answers *)
  bind_ret : Z;               (* what bind () answers *)
  arrivals : list arrival;    (* what the successive recvfrom () find *)
  stack : memory              (* the memory main starts with *)
}.

Definition socket (w : world) : proc Z :=
  emit (Socket (socket_ret w)) ;; mret (socket_ret w).

Definition bind (fd port : Z) (w : world) : proc Z :=
  emit (Bind fd port (bind_ret w)) ;; mret (bind_ret w).

Definition close (fd : Z) : proc unit := emit (Close fd).

(** What a delivered datagram does to the buffer of [recvfrom]: at most
    [size] bytes are copied to its start, the rest of the datagram is lost;
    the result is the number of bytes copied. *)
Definition deliver (buf : list ascii) (size : nat) (payload : list ascii)
  : Z * list ascii :=
  let data := take size payload in
  (Z.of_nat (length data), data ++ drop (length data) buf).

(** [recvfrom (fd, buf, size, ...)]; a buffer shorter than [size] is an
    error of the caller. *)
Definition recvfrom (fd : Z) (buf : list ascii) (size : nat) (a : arrival)
  : proc (Z * list ascii) :=
  if decide (size <= length buf)%nat then
    match a with
    | Failure =>
        emit (Recvfrom fd (Z.of_nat size) (-1)) ;; mret (-1, buf)
    | Datagram payload =>
        emit (Recvfrom fd (Z.of_nat size) (fst (deliver buf size payload))) ;;
        mret (deliver buf size payload)
    end
  else undefined.

Definition BUFFER_SIZE : nat := 1024.

(** One turn of the [while (1)] loop, lines 116-136. *)
Definition iteration (sockfd : Z) (a : arrival) (m : memory) : proc memory :=
  '(n, buf) ← recvfrom sockfd (buffer m) (BUFFER_SIZE - 1) a ;
  if 0 <? n then
    buf ← lift (store buf (Z.to_nat n) NUL) ;
    '(rms_value, pitch_value, m') ←
      lift (parse_record {| buffer := buf; olds := olds m |}) ;
    render_audio rms_value pitch_value ;;
    mret m'
  else if n <? 0 then
    perror (bytes "recvfrom error") ;;
    mret {| buffer := buf; olds := olds m |}
  else mret {| buffer := buf; olds := olds m |}.

(** The loop; it ends only when no datagram is left to wait for. *)
Fixpoint listen (sockfd : Z) (l : list arrival) (m : memory) : proc Z :=
  match l with
  | [] => blocked
  | a :: l' => m' ← iteration sockfd a m ; listen sockfd l' m'
  end.

Definition main (w : world) : proc Z :=
  printf (bytes "C Visualiser starting..." ++ newline) ;;
  sockfd ← socket w ;
  (if sockfd <? 0
   then perror (bytes "socket creation failed") ;; exit EXIT_FAILURE
   else mret tt) ;;
  r ← bind sockfd PORT w ;
  (if r <? 0
   then perror (bytes "bind failed") ;; close sockfd ;; exit EXIT_FAILURE
   else mret tt) ;;
  printf (bytes "C Visualiser listening on port " ++ decimal PORT ++ newline) ;;
  listen sockfd (arrivals w) (stack w).

(** * Definitions used to state the properties *)

(** A shift record that has lost nothing. *)
Definition exact (r : shr_record) : Prop :=
  shr_r r = false /\ shr_s r = false.

(** How far a mantissa [m] at exponent [e] is shifted to the right to fit
    the format, and the float that results. *)
Definition shift_amount (prec emax m e : Z) : Z :=
  Z.max 0 (fexp prec emax (Zdigits2 m + e) - e).

Definition renorm (prec emax : Z) (s : bool) (m e : Z) : spec_float :=
  let n := shift_amount prec emax m e in
  match m / 2 ^ n with
  | Z0 => S754_zero s
  | Zpos p =>
      if e + n <=? emax - prec then S754_finite s p (e + n)
      else S754_infinity s
  | Zneg _ => S754_nan
  end.

(** [x] is a zero, or a positive float [m * 2 ^ e <= B] whose exponent is
    not positive. *)
Definition bounded_by (B : Z) (x : spec_float) : Prop :=
  match x with
  | S754_zero _ => True
  | S754_finite false m e => e <= 0 /\ Zpos m <= B * 2 ^ (- e)
  | _ => False
  end.






(** The column count of the pitch bar in exact integer arithmetic: clamp to
    [100, 1000], subtract 100, scale by 40 / 900 and round down. *)
Definition pitch_columns (p : Z) : Z :=
  if 0 <? p then (Z.min (Z.max p 100) 1000 - 100) * 40 / 900 else 0.

Definition pitch_bar_agrees (p : Z) : bool :=
  match pitch_bar_length p with
  | Some P => P =? pitch_columns p
  | None => false
  end.

(** The actions of one repaint with [L] loudness columns and [P] pitch
    columns. *)
Definition bar_actions (n : Z) : trace :=
  replicate (Z.to_nat n) (Write [BAR_CHAR]) ++
  replicate (Z.to_nat (BAR_WIDTH - n)) (Write [" "%char]).

Definition hz_text (pitch_value : Z) : list ascii :=
  bytes " " ++ decimal (if 0 <? pitch_value then pitch_value else 0)
    ++ bytes " Hz" ++ newline.

Definition repaint (L P pitch_value : Z) : trace :=
  [System (bytes "clear"); Write banner; Write (bytes "RMS  : ")] ++
  bar_actions L ++
  [Write newline; Write (bytes "Pitch: ")] ++
  bar_actions P ++
  [Write (hz_text pitch_value)] ++
  replicate 47 (Write ["-"%char]) ++
  [Write newline; Flush].

(** The text of one repaint: a gauge of [n] filled columns, and the whole
    frame. *)
Definition bar (n : Z) : list ascii :=
  replicate (Z.to_nat n) BAR_CHAR ++ replicate (Z.to_nat (BAR_WIDTH - n)) " "%char.

Definition frame (L P pitch_value : Z) : list ascii :=
  banner ++
  bytes "RMS  : " ++ bar L ++ newline ++
  bytes "Pitch: " ++ bar P ++ hz_text pitch_value ++
  replicate 47 "-"%char ++ newline.

(** The record as text: the C string a payload holds, and its fields. *)
Fixpoint until_nul (l : list ascii) : list ascii :=
  match l with
  | [] => []
  | c :: r => if decide (c = NUL) then [] else c :: until_nul r
  end.

(** Length of the leading run of delimiters, and of non-delimiters. *)
Fixpoint lead_in (delim s : list ascii) : nat :=
  match s with
  | c :: r => if bool_decide (c ∈ delim) then S (lead_in delim r) else O
  | [] => O
  end.

Fixpoint lead_out (delim s : list ascii) : nat :=
  match s with
  | c :: r => if bool_decide (c ∈ delim) then O else S (lead_out delim r)
  | [] => O
  end.

Definition skip_delims (delim s : list ascii) : list ascii :=
  drop (lead_in delim s) s.

Definition token (delim s : list ascii) : list ascii :=
  take (lead_out delim s) s.

Definition after_token (delim s : list ascii) : list ascii :=
  drop (lead_out delim s) s.

(** What [strtok] leaves: the result pointer and the memory, for a buffer
    [pre ++ s ++ NUL :: post] scanned from the start of [s]. *)
Definition strtok_result (delim pre s post : list ascii) : option nat * memory :=
  let k := lead_in delim s in
  let s1 := drop k s in
  let j := lead_out delim s1 in
  let start := (length pre + k)%nat in
  match s1, drop j s1 with
  | [], _ =>
      (None, {| buffer := pre ++ s ++ NUL :: post; olds := Some start |})
  | _ :: _, [] =>
      (Some start,
       {| buffer := pre ++ s ++ NUL :: post; olds := Some (start + j)%nat |})
  | _ :: _, _ :: s2 =>
      (Some start,
       {| buffer := pre ++ take k s ++ take j s1 ++ NUL :: s2 ++ NUL :: post;
          olds := Some (S (start + j)) |})
  end.

(** The sample a C string stands for: its first two non-empty fields. *)
Definition fields_value (s : list ascii) : spec_float * Z :=
  let s1 := skip_delims comma s in
  let rms_value := F32.of_double (strtod (token comma s1)) in
  let s2 := skip_delims comma (tail (after_token comma s1)) in
  match s1, s2 with
  | [], _ => (zerof, 0)
  | _ :: _, [] => (rms_value, 0)
  | _ :: _, _ :: _ => (rms_value, int_of_long (strtol (token comma s2)))
  end.

(** The sample a datagram stands for. *)
Definition record_value (payload : list ascii) : spec_float * Z :=
  fields_value (until_nul (take (BUFFER_SIZE - 1) payload)).

(** Lines 116-131 for a delivered datagram: the buffer is filled by
    [recvfrom], terminated at [buffer[n]] and parsed. *)
Definition sample_of (payload : list ascii) (m : memory)
  : option (spec_float * Z * memory) :=
  let '(n, buf) := deliver (buffer m) (BUFFER_SIZE - 1) payload in
  buf ← store buf (Z.to_nat n) NUL ;
  parse_record {| buffer := buf; olds := olds m |}.

(** A non-empty field: no delimiter and no terminator in it. *)
Definition is_field (t : list ascii) : bool :=
  match t with
  | [] => false
  | _ :: _ =>
      forallb (fun c => negb (bool_decide (c = ","%char)) &&
                        negb (bool_decide (c = NUL))) t
  end.

Definition is_digit (c : ascii) : bool := (48 <=? code c) && (code c <=? 57).


(** The number a run of decimal digits denotes. *)
Definition digits_value (ds : list ascii) : Z :=
  fold_left (fun acc c => acc * 10 + (code c - 48)) ds 0.

















(** A buffer full of stale bytes, for concrete runs. *)
Definition stale_memory : memory :=
  {| buffer := replicate 1024 "x"%char; olds := None |}.

(** The first line the program prints. *)
Definition greeting : list ascii := bytes "C Visualiser starting..." ++ newline.

(** The line printed once the socket is bound. *)
Definition listening : list ascii :=
  bytes "C Visualiser listening on port 12345" ++ newline.

(** The column count of the loudness bar, 0 where the cast is undefined. *)
Definition rms_columns (v : spec_float) : Z := default 0 (rms_bar_length v).

(** What one turn of the loop does and prints, as a function of what
    arrives only. *)
Definition turn_actions (fd : Z) (a : arrival) : trace :=
  match a with
  | Failure => [Recvfrom fd 1023 (-1); Perror (bytes "recvfrom error")]
  | Datagram payload =>
      Recvfrom fd 1023 (Z.of_nat (length (take 1023 payload))) ::
      match payload with
      | [] => []
      | _ :: _ =>
          repaint (rms_columns (fst (record_value payload)))
                  (pitch_columns (snd (record_value payload)))
                  (snd (record_value payload))
      end
  end.

Definition turn_frame (a : arrival) : list ascii :=
  match a with
  | Failure | Datagram [] => []
  | Datagram payload =>
      frame (rms_columns (fst (record_value payload)))
            (pitch_columns (snd (record_value payload)))
            (snd (record_value payload))
  end.

Definition is_failure (a : arrival) : bool :=
  match a with Failure => true | Datagram _ => false end.

(** The diagnostics sent to stderr, in order. *)
Fixpoint stderr_lines (t : trace) : list (list ascii) :=
  match t with
  | [] => []
  | Perror msg :: t' => msg :: stderr_lines t'
  | _ :: t' => stderr_lines t'
  end.

(** Only bytes are written: no other action. *)
Definition is_write (a : action) : bool :=
  match a with Write _ => true | _ => false end.

(** * Properties *)

(** ** The numeric model on known values *)

(** 0.1 as a double is [0x3FB999999999999A], as a float [0x3DCCCCCD]. *)
Example strtod_tenth :
  strtod (bytes "0.1") = S754_finite false 7205759403792794 (-56).
Proof. vm_compute. reflexivity. Qed.

Example float_tenth :
  F32.of_double (strtod (bytes "0.1")) = S754_finite false 13421773 (-27)
  /\ F32.of_ratio 1 10 = S754_finite false 13421773 (-27).
Proof. vm_compute. split; reflexivity. Qed.

Example strtod_forms :
  strtod (bytes "  -1e-3") = SFopp (strtod (bytes "0.001")) /\
  strtod (bytes "0x1.8p1") = strtod (bytes "3") /\
  strtod (bytes ".5") = strtod (bytes "5e-1") /\
  strtod (bytes "-Infinity") = S754_infinity true /\
  strtod (bytes "nan") = S754_nan /\
  strtod (bytes "1e400") = S754_infinity false /\
  strtod (bytes "4.9e-324") = S754_finite false 1 (-1074) /\
  strtod (bytes "e5") = zerof.
Proof. vm_compute. repeat split; reflexivity. Qed.

Example atoi_forms :
  int_of_long (strtol (bytes "  -42abc")) = -42 /\
  int_of_long (strtol (bytes "+7")) = 7 /\
  int_of_long (strtol (bytes "2147483648")) = -2147483648 /\
  int_of_long (strtol (bytes "99999999999999999999")) = -1.
Proof. vm_compute. repeat split; reflexivity. Qed.

(** 2^24 + 1 is not a float: the conversion rounds to even. *)
Example of_int_rounds :
  F32.of_int 16777217 = F32.of_int 16777216 /\
  F32.of_int 16777219 = F32.of_int 16777220.
Proof. vm_compute. split; reflexivity. Qed.

Example repaint_example :
  stdout_bytes (snd (run (render_audio (F32.of_ratio 2 10) 550) [])) =
    banner ++
    bytes "RMS  : ....................                    " ++ newline ++
    bytes "Pitch: ....................                     550 Hz" ++ newline ++
    bytes "-----------------------------------------------" ++ newline.
Proof. vm_compute. reflexivity. Qed.


(** ** Rounding: what [binary_round_aux] computes, in integer arithmetic *)

Section Rounding.
Variables prec emax : Z.

Lemma digits2_pos_size (p : positive) : digits2_pos p = Pos.size p.
Proof. induction p; simpl; congruence. Qed.

Lemma Zdigits2_log2 (m : Z) : 0 < m -> Zdigits2 m = Z.log2 m + 1.
Proof.
  destruct m as [|p|p]; try lia. intros _.
  destruct p; simpl; rewrite ?digits2_pos_size; lia.
Qed.

Lemma Zdigits2_bounds (m : Z) :
  0 < m -> 2 ^ (Zdigits2 m - 1) <= m < 2 ^ Zdigits2 m.
Proof.
  intros H. rewrite Zdigits2_log2 by done.
  replace (Z.log2 m + 1 - 1) with (Z.log2 m) by lia.
  apply Z.log2_spec, H.
Qed.

Lemma Zdigits2_nonneg (m : Z) : 0 <= Zdigits2 m.
Proof. destruct m; simpl; lia. Qed.

Lemma Zdigits2_le (m k : Z) : 0 <= m < 2 ^ k -> 0 <= k -> Zdigits2 m <= k.
Proof.
  intros [H0 H1] Hk. destruct (Z.eq_dec m 0) as [->|]; [simpl; lia|].
  rewrite Zdigits2_log2 by lia.
  assert (Z.log2 m < k) by (apply Z.log2_lt_pow2; lia). lia.
Qed.

Lemma Zdigits2_ge (m k : Z) : 2 ^ k <= m -> 0 <= k -> k + 1 <= Zdigits2 m.
Proof.
  intros H Hk. assert (0 < 2 ^ k) by (apply Z.pow_pos_nonneg; lia).
  rewrite Zdigits2_log2 by lia.
  assert (k <= Z.log2 m) by (apply Z.log2_le_pow2; lia). lia.
Qed.

Lemma iter_pos_nat {A} (f : A -> A) (p : positive) (x : A) :
  SpecFloat.iter_pos f p x = Nat.iter (Pos.to_nat p) f x.
Proof.
  revert x. induction p as [p IH|p IH|]; intros x; cbn [SpecFloat.iter_pos].
  - rewrite !IH, Pos2Nat.inj_xI, Nat.iter_succ_r.
    replace (2 * Pos.to_nat p)%nat with (Pos.to_nat p + Pos.to_nat p)%nat by lia.
    rewrite Nat.iter_add. done.
  - rewrite !IH, Pos2Nat.inj_xO.
    replace (2 * Pos.to_nat p)%nat with (Pos.to_nat p + Pos.to_nat p)%nat by lia.
    rewrite Nat.iter_add. done.
  - done.
Qed.


Lemma shr_1_m (r : shr_record) :
  0 <= shr_m r -> shr_m (shr_1 r) = shr_m r / 2.
Proof.
  destruct r as [m b c]; simpl. intros H. rewrite <- Z.div2_div.
  destruct m as [|[q|q|]|]; simpl; done || lia.
Qed.

Lemma shr_1_exact (r : shr_record) :
  0 <= shr_m r -> exact r -> shr_m r mod 2 = 0 -> exact (shr_1 r).
Proof.
  destruct r as [m b c]; unfold exact; simpl. intros H [-> ->] Hm.
  destruct m as [|[q|q|]|]; simpl; try done; try lia.
  - rewrite Pos2Z.inj_xI in Hm. exfalso.
    rewrite Z.add_comm, Z.mul_comm, Z.mod_add in Hm by lia. done.
Qed.

Lemma shr_iter_m (n : nat) (r : shr_record) :
  0 <= shr_m r ->
  shr_m (Nat.iter n shr_1 r) = shr_m r / 2 ^ Z.of_nat n.
Proof.
  intros H. induction n as [|n IH].
  - simpl. rewrite Z.div_1_r. done.
  - rewrite Nat.iter_succ, shr_1_m, IH.
    + rewrite Nat2Z.inj_succ, Z.pow_succ_r by lia.
      rewrite Z.div_div by lia. f_equal. lia.
    + rewrite IH. apply Z.div_pos; lia.
Qed.

Lemma shr_iter_exact (n : nat) (r : shr_record) :
  0 <= shr_m r -> exact r -> shr_m r mod 2 ^ Z.of_nat n = 0 ->
  exact (Nat.iter n shr_1 r).
Proof.
  intros H Hr. induction n as [|n IH]; intros Hm; [done|].
  rewrite Nat2Z.inj_succ, Z.pow_succ_r in Hm by lia.
  assert (0 < 2 ^ Z.of_nat n) by (apply Z.pow_pos_nonneg; lia).
  rewrite Z.mul_comm, Z.rem_mul_r in Hm by lia.
  assert (0 <= shr_m r mod 2 ^ Z.of_nat n) by (apply Z.mod_pos_bound; lia).
  assert (0 <= (shr_m r / 2 ^ Z.of_nat n) mod 2) by (apply Z.mod_pos_bound; lia).
  rewrite Nat.iter_succ. apply shr_1_exact.
  - rewrite shr_iter_m by done. apply Z.div_pos; lia.
  - apply IH. nia.
  - rewrite shr_iter_m by done. nia.
Qed.

Lemma shr_spec (r : shr_record) (e n : Z) :
  0 <= shr_m r ->
  snd (shr r e n) = e + Z.max 0 n /\
  shr_m (fst (shr r e n)) = shr_m r / 2 ^ Z.max 0 n /\
  (exact r -> shr_m r mod 2 ^ Z.max 0 n = 0 -> exact (fst (shr r e n))).
Proof.
  intros H. destruct n as [|k|k]; simpl.
  - rewrite Z.div_1_r. split; [lia|done].
  - rewrite iter_pos_nat, shr_iter_m by done.
    rewrite positive_nat_Z. split; [lia|]. split; [done|].
    intros Hr Hm. apply shr_iter_exact; [done..|].
    rewrite positive_nat_Z. done.
  - rewrite Z.div_1_r. split; [lia|done].
Qed.

Lemma round_nearest_even_cases (m : Z) (l : location) :
  round_nearest_even m l = m \/ round_nearest_even m l = m + 1.
Proof.
  destruct l as [|[]]; simpl; auto. destruct (Z.even m); auto.
Qed.

Lemma round_nearest_even_exact (r : shr_record) :
  exact r -> round_nearest_even (shr_m r) (loc_of_shr_record r) = shr_m r.
Proof. destruct r as [m b c]. intros [Hb Hc]. simpl in *. subst. done. Qed.


(** [binary_round_aux] drops [shift_amount] low bits, possibly adds one
    unit (never when nothing was lost), and renormalises. *)
Lemma binary_round_aux_spec (s : bool) (q e : Z) (l : location) :
  0 <= q ->
  exists d : Z,
    (d = 0 \/ d = 1) /\
    (l = loc_Exact -> q mod 2 ^ shift_amount prec emax q e = 0 -> d = 0) /\
    binary_round_aux prec emax s q e l =
      renorm prec emax s (q / 2 ^ shift_amount prec emax q e + d) (e + shift_amount prec emax q e).
Proof.
  intros Hq. unfold binary_round_aux, shr_fexp.
  set (r0 := shr_record_of_loc q l).
  assert (Hr0 : shr_m r0 = q) by (destruct l as [|[]]; done).
  assert (H0 : 0 <= shr_m r0) by lia.
  destruct (shr_spec r0 e (fexp prec emax (Zdigits2 q + e) - e) H0)
    as (He1 & Hm1 & Hx1).
  fold (shift_amount prec emax q e) in He1, Hm1, Hx1.
  destruct (shr r0 e _) as [r1 e1]. simpl in He1, Hm1, Hx1. subst e1.
  set (m2 := round_nearest_even (shr_m r1) (loc_of_shr_record r1)).
  assert (Hm1' : 0 <= shr_m r1).
  { rewrite Hm1. apply Z.div_pos; [lia|]. apply Z.pow_pos_nonneg; [lia|].
    unfold shift_amount. lia. }
  exists (m2 - shr_m r1). split; [|split].
  - destruct (round_nearest_even_cases (shr_m r1) (loc_of_shr_record r1));
      unfold m2; lia.
  - intros -> Hmod. unfold m2. rewrite round_nearest_even_exact; [lia|].
    apply Hx1; [done|]. rewrite Hr0. done.
  - rewrite Hr0 in Hm1. rewrite <- Hm1.
    replace (shr_m r1 + (m2 - shr_m r1)) with m2 by lia.
    assert (H2 : 0 <= m2).
    { destruct (round_nearest_even_cases (shr_m r1) (loc_of_shr_record r1));
        unfold m2; lia. }
    set (e1 := e + shift_amount prec emax q e).
    change (shr_record_of_loc m2 loc_Exact) with (Build_shr_record m2 false false).
    destruct (shr_spec (Build_shr_record m2 false false) e1
                (fexp prec emax (Zdigits2 m2 + e1) - e1) H2) as (He2 & Hm2 & _).
    fold (shift_amount prec emax m2 e1) in He2, Hm2.
    destruct (shr _ e1 _) as [r2 e2]. simpl in He2, Hm2. subst e2.
    unfold renorm. rewrite Hm2. done.
Qed.
End Rounding.

(** ** Bounds on binary32 results *)

Lemma pow2_pos (k : Z) : 0 <= k -> 0 < 2 ^ k.
Proof. intros. apply Z.pow_pos_nonneg; lia. Qed.

Lemma pow2_split (a n : Z) : 0 <= n <= a -> 2 ^ a = 2 ^ n * 2 ^ (a - n).
Proof. intros. rewrite <- Z.pow_add_r by lia. f_equal. lia. Qed.

Lemma div_pow2_le (m B a n : Z) :
  0 <= n <= a -> m <= B * 2 ^ a -> m / 2 ^ n <= B * 2 ^ (a - n).
Proof.
  intros Hn Hm. apply Z.div_le_upper_bound; [apply pow2_pos; lia|].
  rewrite (pow2_split a n) in Hm by done. lia.
Qed.

Lemma div_pow2_lt (m B a n : Z) :
  0 <= n <= a -> m < B * 2 ^ a -> m / 2 ^ n < B * 2 ^ (a - n).
Proof.
  intros Hn Hm. apply Z.div_lt_upper_bound; [apply pow2_pos; lia|].
  rewrite (pow2_split a n) in Hm by done. lia.
Qed.


Lemma shift_amount_sum (m e : Z) :
  e + shift_amount F32.prec F32.emax m e = Z.max e (Z.max (Zdigits2 m + e - 24) (-149)).
Proof. unfold shift_amount, fexp, emin, F32.prec, F32.emax. lia. Qed.

Lemma renorm_bounded (B m e : Z) :
  0 < B < 2 ^ 24 -> 0 <= m -> e <= 0 -> m <= B * 2 ^ (- e) ->
  bounded_by B (renorm F32.prec F32.emax false m e).
Proof.
  intros HB Hm He Hle. unfold renorm.
  pose proof (shift_amount_sum m e) as Hsum.
  set (n := shift_amount F32.prec F32.emax m e) in *.
  assert (Hn : 0 <= n) by (unfold n, shift_amount; lia).
  assert (Hd : Zdigits2 m <= 24 - e).
  { apply Zdigits2_le; [|lia]. split; [done|].
    replace (24 - e) with (24 + - e) by lia.
    rewrite (Z.pow_add_r 2 24 (- e)) by lia.
    pose proof (pow2_pos (- e)). nia. }
  assert (Hen : e + n <= 0) by lia.
  assert (Hq : m / 2 ^ n <= B * 2 ^ (- e - n)) by (apply div_pow2_le; lia).
  assert (0 <= m / 2 ^ n) by (apply Z.div_pos; [done|apply pow2_pos; lia]).
  destruct (m / 2 ^ n) as [|p|p] eqn:E; simpl; [done| |lia].
  unfold F32.emax, F32.prec.
  destruct (Z.leb_spec (e + n) (128 - 24)); [|lia]. simpl.
  split; [lia|]. replace (- (e + n)) with (- e - n) by lia. done.
Qed.

Lemma int_of_float_bounded (B : Z) (x : spec_float) :
  0 < B <= INT_MAX -> bounded_by B x ->
  exists z : Z, int_of_float x = Some z /\ 0 <= z <= B.
Proof.
  intros HB Hx. destruct x as [s|s| |[] m e]; try done.
  - exists 0. split; [done|lia].
  - destruct Hx as [He Hm]. simpl.
    assert (Ht : 0 <= trunc_mag m e <= B).
    { unfold trunc_mag. destruct e as [|k|k]; simpl in Hm; try lia.
      rewrite Z.shiftr_div_pow2 by lia.
      change (- Z.neg k) with (Z.pos k) in Hm.
      split.
      - apply Z.div_pos; [lia|]. apply pow2_pos. lia.
      - apply Z.div_le_upper_bound; [apply pow2_pos; lia|]. lia. }
    exists (trunc_mag m e).
    unfold in_int, INT_MIN, INT_MAX in *.
    destruct (Z.leb_spec (- 2 ^ 31) (trunc_mag m e)); [|lia].
    destruct (Z.leb_spec (trunc_mag m e) (2 ^ 31 - 1)); [|lia]. done.
Qed.

(** A product with 40: [r <= 1] gives [r * 40 <= 40]. *)
Lemma mul_width_bounded (r : spec_float) :
  bounded_by 1 r -> bounded_by 40 (F32.mul r (F32.of_int BAR_WIDTH)).
Proof.
  intros Hr. change (F32.of_int BAR_WIDTH) with (S754_finite false 10485760 (-18)).
  destruct r as [s|s| |[] m e]; try done.
  destruct Hr as [He Hm]. unfold F32.mul, SFmul. cbn [xorb].
  rewrite Pos2Z.inj_mul.
  set (q := Z.pos m * Z.pos 10485760). set (e0 := e + -18).
  assert (Hq0 : 0 <= q) by (unfold q; lia).
  destruct (binary_round_aux_spec F32.prec F32.emax false q e0 loc_Exact Hq0)
    as (d & Hd & Hexact & ->).
  pose proof (shift_amount_sum q e0) as Hsum.
  set (n := shift_amount F32.prec F32.emax q e0) in *.
  assert (Hn : 0 <= n) by (unfold n, shift_amount; lia).
  assert (Hp : 2 ^ (- e0) = 2 ^ 18 * 2 ^ (- e)).
  { unfold e0. rewrite <- Z.pow_add_r by lia. f_equal. lia. }
  assert (Hq : q <= 40 * 2 ^ (- e0)) by (rewrite Hp; unfold q; lia).
  assert (Hdig : Zdigits2 q <= 6 - e0).
  { apply Zdigits2_le; [|unfold e0; lia]. split; [done|].
    replace (6 - e0) with (6 + - e0) by lia.
    rewrite (Z.pow_add_r 2 6 (- e0)) by (unfold e0; lia).
    pose proof (pow2_pos (- e0)). unfold e0 in *. lia. }
  assert (Hen : e0 + n <= 0) by (unfold e0 in *; lia).
  assert (Hne : n <= - e0) by lia.
  apply renorm_bounded; [lia| | lia |].
  - assert (0 <= q / 2 ^ n) by (apply Z.div_pos; [done|apply pow2_pos; lia]). lia.
  - replace (- (e0 + n)) with (- e0 - n) by lia.
    destruct (Z.eq_dec q (40 * 2 ^ (- e0))) as [Heq|Hne'].
    + assert (Hmod : q mod 2 ^ n = 0).
      { rewrite Heq, (pow2_split (- e0) n) by lia.
        replace (40 * (2 ^ n * 2 ^ (- e0 - n))) with (40 * 2 ^ (- e0 - n) * 2 ^ n) by lia.
        apply Z.mod_mul. pose proof (pow2_pos n). lia. }
      rewrite (Hexact eq_refl Hmod), Z.add_0_r. apply div_pow2_le; lia.
    + assert (q / 2 ^ n < 40 * 2 ^ (- e0 - n)) by (apply div_pow2_lt; lia). lia.
Qed.

Lemma bounded_inv (m : positive) (e : Z) :
  bounded F32.prec F32.emax m e = true ->
  Z.max (Zdigits2 (Zpos m) + e - 24) (-149) = e /\ e <= 104.
Proof.
  unfold bounded, canonical_mantissa, fexp, emin, F32.prec, F32.emax.
  intros [H1 H2]%andb_prop. apply Z.eqb_eq in H1. apply Z.leb_le in H2.
  simpl Zdigits2. lia.
Qed.

Lemma SFltb_finite_inv (m m' : positive) (e e' : Z) :
  SFltb (S754_finite false m e) (S754_finite false m' e') = true ->
  e < e' \/ (e = e' /\ Zpos m < Zpos m').
Proof.
  unfold SFltb, SFcompare. destruct (Z.compare_spec e e'); try done; auto.
  change (Pos.compare_cont Eq m m') with (Pos.compare m m').
  destruct (Pos.compare_spec m m'); try done. right. split; [done|lia].
Qed.


(** A quotient by 0.4f: [c < 0.4f] gives [c / 0.4f <= 1]. *)
Lemma div_max_bounded (m : positive) (e : Z) :
  bounded F32.prec F32.emax m e = true ->
  SFltb (S754_finite false m e) MAX_RMS_FOR_BAR = true ->
  bounded_by 1 (F32.div (S754_finite false m e) MAX_RMS_FOR_BAR).
Proof.
  change MAX_RMS_FOR_BAR with (S754_finite false 13421773 (-25)).
  intros [Hcan Hemax]%bounded_inv Hlt%SFltb_finite_inv.
  pose proof (Zdigits2_bounds (Zpos m) eq_refl) as Hdig.
  set (d1 := Zdigits2 (Zpos m)) in *.
  assert (Hd1 : 1 <= d1 <= 24).
  { split; [|lia]. unfold d1. simpl. lia. }
  set (e' := Z.max (d1 + e - 23) (-149)).
  set (s := e + 25 - e').
  assert (Hs : 0 < s) by (unfold s, e'; lia).
  assert (He' : e' <= -24) by (unfold e'; lia).
  assert (Hcore : SFdiv_core_binary F32.prec F32.emax (Zpos m) e 13421773 (-25)
          = (Zpos m * 2 ^ s / 13421773, e',
             new_location 13421773 ((Zpos m * 2 ^ s) mod 13421773))).
  { unfold SFdiv_core_binary. fold d1. change (Zdigits2 13421773) with 24.
    replace (Z.min (fexp F32.prec F32.emax (d1 + e - (24 + -25))) (e - -25))
      with e' by (unfold e', fexp, emin, F32.prec, F32.emax; lia).
    replace (e - -25 - e') with s by (unfold s; lia).
    destruct s as [|k|k] eqn:Es; try lia.
    rewrite Z.shiftl_mul_pow2 by lia.
    unfold Z.div, Z.modulo. destruct (Z.div_eucl _ _). done. }
  unfold F32.div, SFdiv. rewrite Hcore. cbn [xorb].
  set (q := Zpos m * 2 ^ s / 13421773).
  pose proof (pow2_pos s ltac:(lia)) as Hps.
  assert (Hq0 : 0 <= q) by (apply Z.div_pos; lia).
  (* the quotient stays below [2 ^ - e'] *)
  assert (Hm : Zpos m < 13421773 * 2 ^ (- 25 - e)).
  { destruct Hlt as [Hlt|[-> Hlt]]; [|simpl; lia].
    assert (2 ^ 1 <= 2 ^ (- 25 - e)) by (apply Z.pow_le_mono_r; lia).
    assert (2 ^ d1 <= 2 ^ 24) by (apply Z.pow_le_mono_r; lia). lia. }
  assert (Hq : q < 2 ^ (- e')).
  { apply Z.div_lt_upper_bound; [lia|].
    assert (2 ^ (- e') = 2 ^ (- 25 - e) * 2 ^ s) as ->.
    { rewrite <- Z.pow_add_r by lia. f_equal. unfold s. lia. }
    nia. }
  destruct (binary_round_aux_spec F32.prec F32.emax false q e'
              (new_location 13421773 ((Zpos m * 2 ^ s) mod 13421773)) Hq0)
    as (d & Hd & _ & ->).
  pose proof (shift_amount_sum q e') as Hsum.
  set (n := shift_amount F32.prec F32.emax q e') in *.
  assert (Hn : 0 <= n) by (unfold n, shift_amount; lia).
  assert (Hdq : Zdigits2 q <= - e') by (apply Zdigits2_le; lia).
  assert (q / 2 ^ n < 1 * 2 ^ (- e' - n)) by (apply div_pow2_lt; lia).
  assert (0 <= q / 2 ^ n) by (apply Z.div_pos; [done|apply pow2_pos; lia]).
  apply renorm_bounded; [lia|lia|lia|].
  replace (- (e' + n)) with (- e' - n) by lia. lia.
Qed.

(** ** The loudness bar *)

Lemma SFcompare_finite_eq (m m' : positive) (e e' : Z) :
  SFcompare (S754_finite false m e) (S754_finite false m' e') = Some Eq ->
  m = m' /\ e = e'.
Proof.
  unfold SFcompare. destruct (Z.compare_spec e e'); try done.
  change (Pos.compare_cont Eq m m') with (Pos.compare m m').
  destruct (Pos.compare_spec m m'); done.
Qed.

Lemma MAX_RMS_FOR_BAR_eq : MAX_RMS_FOR_BAR = S754_finite false 13421773 (-25).
Proof. by vm_compute. Qed.

Lemma BAR_WIDTH_float : F32.of_int BAR_WIDTH = S754_finite false 10485760 (-18).
Proof. by vm_compute. Qed.

Lemma rms_bar_length_clamped (v : spec_float) :
  rms_bar_length v =
    int_of_float
      (F32.mul (F32.div (fminf (fmaxf v zerof) MAX_RMS_FOR_BAR) MAX_RMS_FOR_BAR)
               (F32.of_int BAR_WIDTH)).
Proof. done. Qed.

(** The clamped loudness is a zero, 0.4f, or a valid float below 0.4f. *)
Lemma clamp_rms_cases (v : spec_float) :
  F32.valid v = true ->
  let c := fminf (fmaxf v zerof) MAX_RMS_FOR_BAR in
  (exists s, c = S754_zero s) \/
  c = MAX_RMS_FOR_BAR \/
  (exists m e, c = S754_finite false m e /\
     bounded F32.prec F32.emax m e = true /\ SFltb c MAX_RMS_FOR_BAR = true).
Proof.
  intros Hv c. subst c. rewrite MAX_RMS_FOR_BAR_eq.
  destruct v as [s|[]| |[] m e].
  - left. exists s. reflexivity.
  - left. exists false. reflexivity.
  - right; left. reflexivity.
  - left. exists false. reflexivity.
  - left. exists false. reflexivity.
  - change (fmaxf (S754_finite false m e) zerof) with (S754_finite false m e).
    unfold fminf, SFleb, SFltb.
    destruct (SFcompare (S754_finite false m e) (S754_finite false 13421773 (-25)))
      as [[]|] eqn:E; cbn [orb is_nan].
    + right; left. apply SFcompare_finite_eq in E as [-> ->]. reflexivity.
    + right; right. exists m, e. split; [reflexivity|]. split; [exact Hv|].
      rewrite E. reflexivity.
    + right; left. reflexivity.
    + right; left. reflexivity.
Qed.

Lemma rms_bar_length_total (v : spec_float) :
  F32.valid v = true ->
  exists L : Z, rms_bar_length v = Some L /\ 0 <= L <= BAR_WIDTH.
Proof.
  intros Hv. rewrite rms_bar_length_clamped.
  destruct (clamp_rms_cases v Hv) as [[s ->]|[->|(m & e & -> & Hb & Hlt)]].
  - exists 0. split; [destruct s; vm_compute; reflexivity|]. unfold BAR_WIDTH. lia.
  - exists 40. split; [vm_compute; reflexivity|]. unfold BAR_WIDTH. lia.
  - apply (int_of_float_bounded 40); [unfold INT_MAX; lia|].
    apply mul_width_bounded, div_max_bounded; assumption.
Qed.



(** *** The program's count against the exact count

    Rounding moves a result by less than two units of the last place; the
    quotient by 0.4f and the product by 40 stay within [2 ^ -22] and
    [2 ^ -16] of the exact ones, far less than one column. *)



















(** ** The pitch bar *)

Lemma iter_xO_pow2 (q k : positive) :
  Zpos (Pos.iter xO q k) = Zpos q * 2 ^ Zpos k.
Proof.
  induction k as [|k IH] using Pos.peano_ind.
  - simpl. lia.
  - rewrite Pos.iter_succ, Pos2Z.inj_succ, Z.pow_succ_r by lia.
    rewrite Pos2Z.inj_xO, IH. lia.
Qed.

Lemma shl_align_spec (q : positive) (e e' : Z) :
  snd (shl_align q e e') = Z.min e e' /\
  Zpos (fst (shl_align q e e')) = Zpos q * 2 ^ (e - Z.min e e').
Proof.
  unfold shl_align. destruct (e' - e) as [|k|k] eqn:E; simpl.
  - replace (e - Z.min e e') with 0 by lia. split; lia.
  - replace (e - Z.min e e') with 0 by lia. split; lia.
  - rewrite iter_xO_pow2. replace (e - Z.min e e') with (Zpos k) by lia.
    split; lia.
Qed.

Lemma PITCH_MIN_HZ_eq : PITCH_MIN_HZ = S754_finite false 13107200 (-17).
Proof. by vm_compute. Qed.

Lemma PITCH_MAX_HZ_eq : PITCH_MAX_HZ = S754_finite false 16384000 (-14).
Proof. by vm_compute. Qed.

(** [(float) p] is at least 1000.0f when [p >= 1000]. *)
Lemma of_int_large (p : Z) :
  1000 <= p ->
  F32.of_int p = S754_infinity false \/
  exists m e, F32.of_int p = S754_finite false m e /\
    (-14 < e \/ (e = -14 /\ 16384000 <= Zpos m)).
Proof.
  intros Hp. destruct p as [|q|q]; try lia.
  unfold F32.of_int, binary_normalize, binary_round.
  pose proof (Zdigits2_bounds (Zpos q) eq_refl) as Hdig.
  change (Z.pos (digits2_pos q)) with (Zdigits2 (Zpos q)).
  set (d := Zdigits2 (Zpos q)) in *.
  assert (Hd : 10 <= d) by (apply (Zdigits2_ge (Zpos q) 9); lia).
  replace (fexp F32.prec F32.emax (d + 0)) with (d - 24)
    by (unfold fexp, emin, F32.prec, F32.emax; lia).
  destruct (shl_align_spec q 0 (d - 24)) as [Hez HMz].
  destruct (shl_align q 0 (d - 24)) as [mz ez]. simpl in Hez, HMz.
  assert (Hez' : ez <= 0 /\ ez <= d - 24 /\ (ez = 0 \/ ez = d - 24)) by lia.
  replace (0 - Z.min 0 (d - 24)) with (- ez) in HMz by lia. clear Hez.
  pose proof (pow2_pos (- ez) ltac:(lia)) as Hpz.
  assert (HdMz : Zdigits2 (Zpos mz) = d - ez).
  { rewrite HMz, Zdigits2_log2 by lia.
    rewrite Z.log2_mul_pow2 by lia. unfold d.
    rewrite (Zdigits2_log2 (Zpos q)) by lia. lia. }
  destruct (binary_round_aux_spec F32.prec F32.emax false (Zpos mz) ez loc_Exact
              ltac:(lia)) as (dl & Hdl & _ & ->).
  pose proof (shift_amount_sum (Zpos mz) ez) as Hsum. rewrite HdMz in Hsum.
  set (n1 := shift_amount F32.prec F32.emax (Zpos mz) ez) in *.
  assert (Hn1 : n1 = d - 24 - ez) by lia.
  replace (ez + n1) with (d - 24) by lia.
  pose proof (pow2_pos n1 ltac:(lia)) as Hpn1.
  (* the mantissa after the first shift has 24 bits *)
  assert (HM1 : 2 ^ 23 <= Zpos mz / 2 ^ n1 < 2 ^ 24).
  { split.
    - apply Z.div_le_lower_bound; [lia|].
      assert (2 ^ n1 * 2 ^ 23 = 2 ^ (d - 1) * 2 ^ (- ez)) as ->.
      { rewrite <- !Z.pow_add_r by lia. f_equal. lia. }
      rewrite HMz. nia.
    - apply Z.div_lt_upper_bound; [lia|].
      assert (2 ^ n1 * 2 ^ 24 = 2 ^ d * 2 ^ (- ez)) as ->.
      { rewrite <- !Z.pow_add_r by lia. f_equal. lia. }
      rewrite HMz. nia. }
  set (M2 := Zpos mz / 2 ^ n1 + dl) in *.
  assert (HM2 : 2 ^ 23 <= M2 <= 2 ^ 24) by (unfold M2; lia).
  assert (HM2' : Zpos mz / 2 ^ n1 <= M2) by (unfold M2; lia).
  clearbody M2.
  unfold renorm.
  pose proof (shift_amount_sum M2 (d - 24)) as Hsum2.
  set (n2 := shift_amount F32.prec F32.emax M2 (d - 24)) in *.
  assert (HdM2 : 24 <= Zdigits2 M2 <= 25).
  { split; [apply (Zdigits2_ge M2 23); lia|apply Zdigits2_le; lia]. }
  assert (Hn2 : n2 = Zdigits2 M2 - 24) by lia.
  assert (HM3 : 0 < M2 / 2 ^ n2 /\ (n2 = 0 -> M2 / 2 ^ n2 = M2)).
  { assert (n2 = 0 \/ n2 = 1) as [->| ->] by lia.
    - rewrite Z.pow_0_r, Z.div_1_r. lia.
    - split; [|lia]. apply Z.div_str_pos. lia. }
  destruct HM3 as [HM3 HM3'].
  destruct (M2 / 2 ^ n2) as [|m3|m3] eqn:E3; try lia.
  destruct (d - 24 + n2 <=? F32.emax - F32.prec); [|by left].
  right. exists m3, (d - 24 + n2). split; [done|].
  assert (n2 = 0 -> ez = -14 -> n1 = 0 -> 16384000 <= Zpos m3) as Hfin.
  { intros H2 -> H1. rewrite HM3' in E3 by done.
    rewrite H1, Z.pow_0_r, Z.div_1_r in HM2'.
    rewrite HMz in HM2'. change (2 ^ (- -14)) with 16384 in HM2'. lia. }
  destruct (Z.eq_dec (d - 24 + n2) (-14)) as [He|]; [right|left; lia].
  split; [done|]. apply Hfin; lia.
Qed.

Lemma pitch_clamp_large (p : Z) :
  1000 <= p ->
  fminf (fmaxf (F32.of_int p) PITCH_MIN_HZ) PITCH_MAX_HZ = PITCH_MAX_HZ.
Proof.
  intros Hp. rewrite PITCH_MIN_HZ_eq, PITCH_MAX_HZ_eq.
  destruct (of_int_large p Hp) as [->|(m & e & -> & He)]; [reflexivity|].
  assert (fmaxf (S754_finite false m e) (S754_finite false 13107200 (-17))
          = S754_finite false m e) as ->.
  { unfold fmaxf, SFleb, SFcompare.
    destruct (Z.compare_spec (-17) e); try lia. reflexivity. }
  unfold fminf, SFleb.
  destruct (SFcompare (S754_finite false m e) (S754_finite false 16384000 (-14)))
    as [[]|] eqn:E; cbn [orb is_nan]; try reflexivity.
  - apply SFcompare_finite_eq in E as [-> ->]. reflexivity.
  - assert (Hlt : SFltb (S754_finite false m e)
                    (S754_finite false 16384000 (-14)) = true)
      by (unfold SFltb; rewrite E; reflexivity).
    apply SFltb_finite_inv in Hlt. lia.
Qed.


Lemma pitch_bar_small_checked : forallb pitch_bar_agrees (seqZ 1 1000) = true.
Proof. vm_compute. reflexivity. Qed.

Lemma pitch_bar_length_small (p : Z) :
  1 <= p < 1000 -> pitch_bar_length p = Some (pitch_columns p).
Proof.
  intros Hp.
  assert (Hin : In p (seqZ 1 1000)).
  { apply list_elem_of_In, elem_of_seqZ. lia. }
  pose proof (proj1 (forallb_forall pitch_bar_agrees (seqZ 1 1000))
                pitch_bar_small_checked p Hin) as Hp'.
  unfold pitch_bar_agrees in Hp'.
  destruct (pitch_bar_length p) as [P|]; [|discriminate Hp'].
  apply Z.eqb_eq in Hp'. congruence.
Qed.

Lemma pitch_bar_length_large (p : Z) :
  1000 <= p -> pitch_bar_length p = Some 40.
Proof.
  intros Hp. unfold pitch_bar_length, scaled_pitch.
  destruct (Z.ltb_spec 0 p) as [_|]; [|lia]. cbv zeta.
  rewrite (pitch_clamp_large p Hp). vm_compute. reflexivity.
Qed.

Lemma pitch_bar_length_nonpos (p : Z) :
  p <= 0 -> pitch_bar_length p = Some 0.
Proof.
  intros Hp. unfold pitch_bar_length, scaled_pitch.
  destruct (Z.ltb_spec 0 p) as [|_]; [lia|]. vm_compute. reflexivity.
Qed.

(** The binary32 computation of the program gives the exact column count. *)
Lemma pitch_bar_length_exact (p : Z) :
  pitch_bar_length p = Some (pitch_columns p).
Proof.
  destruct (Z.le_gt_cases p 0) as [Hneg|Hpos].
  - rewrite pitch_bar_length_nonpos by done. unfold pitch_columns.
    destruct (Z.ltb_spec 0 p); [lia|reflexivity].
  - destruct (Z.le_gt_cases 1000 p) as [Hbig|Hsmall].
    + rewrite pitch_bar_length_large by done. unfold pitch_columns.
      destruct (Z.ltb_spec 0 p); [|lia].
      replace (Z.min (Z.max p 100) 1000) with 1000 by lia. reflexivity.
    + apply pitch_bar_length_small. lia.
Qed.

Lemma pitch_columns_range (p : Z) : 0 <= pitch_columns p <= BAR_WIDTH.
Proof.
  unfold pitch_columns, BAR_WIDTH. destruct (0 <? p); [|lia].
  split.
  - apply Z.div_pos; lia.
  - apply Z.div_le_upper_bound; lia.
Qed.

(** ** Running the process monad *)

Lemma run_bind_emit {B} (a : action) (k : unit -> proc B) (t : trace) :
  run (emit a ≫= k) t = run (k tt) (t ++ [a]).
Proof. reflexivity. Qed.

Lemma run_bind_ret {A B} (a : A) (k : A -> proc B) (t : trace) :
  run (mret a ≫= k) t = run (k a) t.
Proof. reflexivity. Qed.

Lemma run_bind_lift {A B} (a : A) (k : A -> proc B) (t : trace) :
  run (lift (Some a) ≫= k) t = run (k a) t.
Proof. reflexivity. Qed.

Lemma run_bind_int_expr {B} (z : Z) (k : Z -> proc B) (t : trace) :
  in_int z = true -> run (int_expr z ≫= k) t = run (k z) t.
Proof. intros H. unfold int_expr. rewrite H. reflexivity. Qed.

Lemma run_iterate_putchar (n : nat) (c : ascii) (t : trace) :
  run (iterate n (putchar c)) t = (Done tt, t ++ replicate n (Write [c])).
Proof.
  revert t. induction n as [|n IH]; intros t; simpl.
  - rewrite app_nil_r. reflexivity.
  - unfold putchar. rewrite run_bind_emit, IH, <- app_assoc. reflexivity.
Qed.

Lemma run_bind_for_upto {B} (n : Z) (c : ascii) (k : unit -> proc B) (t : trace) :
  run (for_upto n (putchar c) ≫= k) t =
    run (k tt) (t ++ replicate (Z.to_nat n) (Write [c])).
Proof.
  unfold for_upto, run, mbind, proc_bind.
  change (iterate (Z.to_nat n) (putchar c) t)
    with (run (iterate (Z.to_nat n) (putchar c)) t).
  rewrite run_iterate_putchar. reflexivity.
Qed.


Lemma in_int_small (z : Z) : -50 <= z <= 50 -> in_int z = true.
Proof.
  intros H. unfold in_int, INT_MIN, INT_MAX.
  destruct (Z.leb_spec (- 2 ^ 31) z); [|lia].
  destruct (Z.leb_spec z (2 ^ 31 - 1)); [|lia]. reflexivity.
Qed.

Lemma render_audio_run (v : spec_float) (p L : Z) (t : trace) :
  rms_bar_length v = Some L -> 0 <= L <= BAR_WIDTH ->
  run (render_audio v p) t = (Done tt, t ++ repaint L (pitch_columns p) p).
Proof.
  intros HL HLr. pose proof (pitch_columns_range p) as HPr.
  unfold render_audio, clear_terminal, system, printf, fflush_stdout.
  rewrite HL, (pitch_bar_length_exact p).
  unfold BAR_WIDTH in *.
  rewrite !run_bind_emit, run_bind_lift, run_bind_emit, run_bind_for_upto.
  rewrite run_bind_int_expr by (apply in_int_small; lia).
  rewrite run_bind_for_upto, run_bind_emit, run_bind_lift, run_bind_emit.
  rewrite run_bind_for_upto.
  rewrite run_bind_int_expr by (apply in_int_small; lia).
  rewrite run_bind_for_upto, run_bind_emit, run_bind_for_upto, run_bind_emit.
  unfold run, emit, repaint, bar_actions, hz_text, BAR_WIDTH.
  change (Z.to_nat (40 + 7)) with 47%nat.
  rewrite <- !app_assoc. reflexivity.
Qed.

(** ** Strings in memory *)

Lemma cstring_app (s post : list ascii) :
  NUL ∉ s -> cstring (s ++ NUL :: post) = Some s.
Proof.
  induction s as [|c s IH]; intros Hs; simpl.
  - destruct (decide (NUL = NUL)); done.
  - apply not_elem_of_cons in Hs as [Hc Hs].
    destruct (decide (c = NUL)); [congruence|]. rewrite IH by done. done.
Qed.

Lemma strspn_app (delim s post : list ascii) :
  NUL ∉ s -> strspn (s ++ NUL :: post) delim = Some (lead_in delim s).
Proof.
  induction s as [|c s IH]; intros Hs; simpl.
  - destruct (decide (NUL = NUL)); done.
  - apply not_elem_of_cons in Hs as [Hc Hs].
    destruct (decide (c = NUL)); [congruence|].
    destruct (bool_decide (c ∈ delim)); [|done]. rewrite IH by done. done.
Qed.

Lemma strcspn_app (delim s post : list ascii) :
  NUL ∉ s -> strcspn (s ++ NUL :: post) delim = Some (lead_out delim s).
Proof.
  induction s as [|c s IH]; intros Hs; simpl.
  - destruct (decide (NUL = NUL)); done.
  - apply not_elem_of_cons in Hs as [Hc Hs].
    destruct (decide (c = NUL)); [congruence|].
    destruct (bool_decide (c ∈ delim)); [done|]. rewrite IH by done. done.
Qed.

Lemma lead_in_le (delim s : list ascii) : (lead_in delim s <= length s)%nat.
Proof.
  induction s as [|c s IH]; simpl; [lia|].
  destruct (bool_decide (c ∈ delim)); simpl; lia.
Qed.

Lemma lead_out_le (delim s : list ascii) : (lead_out delim s <= length s)%nat.
Proof.
  induction s as [|c s IH]; simpl; [lia|].
  destruct (bool_decide (c ∈ delim)); simpl; lia.
Qed.

Lemma not_elem_of_drop (c : ascii) (n : nat) (s : list ascii) :
  c ∉ s -> c ∉ drop n s.
Proof. intros H. rewrite <- (take_drop n s) in H. by apply not_elem_of_app in H as [_ ?]. Qed.

Lemma not_elem_of_take (c : ascii) (n : nat) (s : list ascii) :
  c ∉ s -> c ∉ take n s.
Proof. intros H. rewrite <- (take_drop n s) in H. by apply not_elem_of_app in H as [? _]. Qed.

Lemma load_drop (buf : list ascii) (p : nat) : load buf p = head (drop p buf).
Proof. unfold load. rewrite head_lookup, lookup_drop, Nat.add_0_r. done. Qed.

Lemma drop_middle (pre s x : list ascii) (n : nat) :
  (n <= length s)%nat -> drop (length pre + n) (pre ++ s ++ x) = drop n s ++ x.
Proof. intros H. rewrite drop_app_add, drop_app_le by done. done. Qed.

Lemma insert_middle (l1 l2 : list ascii) (i : nat) (x y : ascii) :
  i = length l1 -> <[i := x]> (l1 ++ y :: l2) = l1 ++ x :: l2.
Proof.
  intros ->. rewrite <- (Nat.add_0_r (length l1)), insert_app_r. done.
Qed.

Lemma head_not_nul (c : ascii) (s s' : list ascii) (n : nat) :
  NUL ∉ s -> drop n s = c :: s' -> c ≠ NUL.
Proof.
  intros Hs Hd ->. apply (not_elem_of_drop NUL n s Hs).
  rewrite Hd. apply elem_of_cons. by left.
Qed.

(** [strtok] on a buffer [pre ++ s ++ NUL :: post], from the start of [s]. *)
Lemma strtok_spec (delim pre s post : list ascii) (sp o : option nat) :
  NUL ∉ s ->
  match sp with Some p => Some p | None => o end = Some (length pre) ->
  strtok sp delim {| buffer := pre ++ s ++ NUL :: post; olds := o |}
  = Some (strtok_result delim pre s post).
Proof.
  intros Hs Hp. unfold strtok. cbn [olds buffer]. rewrite Hp.
  cbn [mbind option_bind]. unfold strtok_result.
  rewrite load_drop, drop_app_length.
  destruct s as [|c s'].
  { cbn [app head lead_in drop]. destruct (decide (NUL = NUL)); [|done].
    cbn. rewrite Nat.add_0_r. done. }
  assert (Hc : c ≠ NUL) by (apply (head_not_nul c (c :: s') s' 0); done).
  cbn [app head mbind option_bind]. destruct (decide (c = NUL)); [done|].
  change (c :: s' ++ NUL :: post) with ((c :: s') ++ NUL :: post).
  remember (c :: s') as s eqn:Es.
  pose proof (lead_in_le delim s) as Hk.
  set (buf := pre ++ s ++ NUL :: post).
  rewrite strspn_app by done.
  set (k := lead_in delim s) in *.
  cbn [mbind option_bind].
  assert (Hd1 : drop (length pre + k) buf = drop k s ++ NUL :: post)
    by (apply drop_middle; done).
  rewrite load_drop, !Hd1.
  destruct (drop k s) as [|c1 s1'] eqn:Es1.
  { cbn [app head mbind option_bind]. destruct (decide (NUL = NUL)); done. }
  assert (Hc1 : c1 ≠ NUL) by (apply (head_not_nul c1 s s1' k); done).
  cbn [app head mbind option_bind]. destruct (decide (c1 = NUL)); [done|].
  assert (Hs1 : NUL ∉ c1 :: s1').
  { rewrite <- Es1. apply not_elem_of_drop, Hs. }
  change (c1 :: s1' ++ NUL :: post) with ((c1 :: s1') ++ NUL :: post).
  rewrite strcspn_app by done. cbn [mbind option_bind].
  pose proof (lead_out_le delim (c1 :: s1')) as Hj.
  set (j := lead_out delim (c1 :: s1')) in *.
  assert (Hkj : (k + j <= length s)%nat).
  { rewrite <- (take_drop k s), length_app, length_take, Es1. lia. }
  assert (Hd2 : drop (length pre + k + j) buf
                = drop j (c1 :: s1') ++ NUL :: post).
  { rewrite <- Nat.add_assoc. unfold buf. rewrite drop_middle by done.
    rewrite <- Es1, drop_drop. done. }
  rewrite load_drop, Hd2.
  destruct (drop j (c1 :: s1')) as [|c2 s2] eqn:Es2.
  { cbn [app head mbind option_bind]. destruct (decide (NUL = NUL)); done. }
  assert (Hc2 : c2 ≠ NUL) by (apply (head_not_nul c2 (c1 :: s1') s2 j); done).
  cbn [app head mbind option_bind]. destruct (decide (c2 = NUL)); [done|].
  assert (Hbuf : buf = (pre ++ take k s ++ take j (c1 :: s1')) ++ c2 :: s2 ++ NUL :: post).
  { unfold buf. rewrite <- (take_drop k s) at 1. rewrite Es1.
    rewrite <- (take_drop j (c1 :: s1')) at 1. rewrite Es2.
    rewrite <- !app_assoc. done. }
  assert (Hlen : (length pre + k + j)%nat
                 = length (pre ++ take k s ++ take j (c1 :: s1'))).
  { rewrite !length_app, !length_take. lia. }
  unfold store. rewrite Hbuf.
  destruct (decide _) as [_|Hn].
  - rewrite insert_middle by done. cbn [mbind option_bind].
    rewrite <- !app_assoc. done.
  - exfalso. apply Hn. rewrite length_app, <- Hlen. cbn [length]. lia.
Qed.

(** What the result of [strtok] means: the token it returns is the first
    field, and the saved pointer is at the text after that field. *)
Lemma strtok_result_spec (delim pre s post : list ascii) :
  NUL ∉ s ->
  let s1 := skip_delims delim s in
  let s' := tail (after_token delim s1) in
  let r := fst (strtok_result delim pre s post) in
  let m' := snd (strtok_result delim pre s post) in
  (exists pre' post',
      buffer m' = pre' ++ s' ++ NUL :: post' /\
      olds m' = Some (length pre')) /\
  length (buffer m') = length (pre ++ s ++ NUL :: post) /\
  (NUL ∉ s') /\
  match r with
  | None => s1 = []
  | Some p => s1 ≠ [] /\ string_at (buffer m') p = Some (token delim s1)
  end.
Proof.
  intros Hs. unfold strtok_result, skip_delims, after_token, token. cbv zeta.
  pose proof (lead_in_le delim s) as Hk.
  set (k := lead_in delim s) in *.
  assert (Hs1 : NUL ∉ drop k s) by (by apply not_elem_of_drop).
  pose proof (lead_out_le delim (drop k s)) as Hj.
  set (j := lead_out delim (drop k s)) in *.
  assert (Hs2 : NUL ∉ drop j (drop k s)) by (by apply not_elem_of_drop).
  assert (Hlk : length (drop k s) = (length s - k)%nat) by apply length_drop.
  destruct (drop k s) as [|c1 s1'] eqn:Es1.
  { cbn [fst snd buffer olds drop tail]. split; [|split; [done|split; [|done]]].
    - exists (pre ++ s), post. rewrite <- app_assoc, length_app.
      cbn [app length] in *. split; [done|]. f_equal. lia.
    - apply not_elem_of_nil. }
  destruct (drop j (c1 :: s1')) as [|c2 s2] eqn:Es2.
  { cbn [fst snd buffer olds tail].
    assert (Hjl : j = length (c1 :: s1')).
    { apply (f_equal length) in Es2. rewrite length_drop in Es2.
      cbn [length] in *. lia. }
    split; [|split; [done|split; [apply not_elem_of_nil|split; [done|]]]].
    - exists (pre ++ s), post. rewrite <- app_assoc, length_app.
      split; [done|]. f_equal. lia.
    - unfold string_at. rewrite drop_middle by done. rewrite Es1.
      rewrite cstring_app by done. rewrite Hjl, firstn_all. done. }
  cbn [fst snd buffer olds tail].
  assert (Hs3 : NUL ∉ s2).
  { intros Hin. apply Hs2. apply elem_of_cons. by right. }
  assert (Hlt : length (take k s) = k) by (rewrite length_take; lia).
  assert (Hlj : length (take j (c1 :: s1')) = j) by (rewrite length_take; lia).
  split; [|split; [|split; [done|split; [done|]]]].
  - exists (pre ++ take k s ++ take j (c1 :: s1') ++ [NUL]), post.
    rewrite <- !app_assoc. split; [done|].
    rewrite !length_app, Hlt, Hlj. cbn [length]. f_equal. lia.
  - rewrite <- (take_drop k s) at 2. rewrite Es1.
    rewrite <- (take_drop j (c1 :: s1')) at 2. rewrite Es2.
    rewrite !length_app. cbn [length]. rewrite !length_app. cbn [length]. lia.
  - unfold string_at. rewrite <- Hlt at 1. rewrite drop_middle by lia.
    rewrite Hlt, drop_ge by lia. cbn [app].
    apply cstring_app. by apply not_elem_of_take.
Qed.

(** ** The parser computes [fields_value] *)

Lemma parse_record_spec (s post : list ascii) (o : option nat) :
  NUL ∉ s ->
  exists m',
    parse_record {| buffer := s ++ NUL :: post; olds := o |}
      = Some (fields_value s, m') /\
    length (buffer m') = length (s ++ NUL :: post).
Proof.
  intros Hs. unfold parse_record.
  change (s ++ NUL :: post) with ([] ++ s ++ NUL :: post).
  rewrite (strtok_spec comma [] s post (Some O) o Hs eq_refl).
  destruct (strtok_result_spec comma [] s post Hs) as (Hnext & Hlen & Hs' & Hr).
  cbv zeta in Hnext, Hlen, Hs', Hr.
  destruct (strtok_result comma [] s post) as [r m1].
  cbn [fst snd] in Hnext, Hlen, Hs', Hr. cbn [mbind option_bind].
  unfold fields_value. cbv zeta.
  destruct r as [p|].
  - destruct Hr as [Hne Hstr]. unfold atof. rewrite Hstr.
    cbn [fmap option_fmap option_map mbind option_bind].
    destruct Hnext as (pre' & post' & Hbuf & Holds).
    destruct m1 as [b1 o1]. cbn [buffer olds] in *. subst b1 o1.
    set (s1 := skip_delims comma s) in *.
    set (s' := tail (after_token comma s1)) in *.
    rewrite (strtok_spec comma pre' s' post' None (Some (length pre')) Hs' eq_refl).
    destruct (strtok_result_spec comma pre' s' post' Hs') as (_ & Hlen2 & _ & Hr2).
    cbv zeta in Hlen2, Hr2.
    destruct (strtok_result comma pre' s' post') as [r2 m2].
    cbn [fst snd] in Hlen2, Hr2. cbn [mbind option_bind].
    destruct r2 as [q|].
    + destruct Hr2 as [Hne2 Hstr2]. unfold atoi. rewrite Hstr2.
      cbn [fmap option_fmap option_map mbind option_bind].
      exists m2. split; [|congruence]. fold s1 s'.
      destruct s1 as [|c1 s1']; [done|].
      destruct (skip_delims comma s') as [|c2 s2']; done.
    + exists m2. split; [|congruence]. fold s1 s'. rewrite Hr2.
      destruct s1 as [|c1 s1']; done.
  - exists m1. split; [|done]. rewrite Hr. done.
Qed.

Lemma until_nul_no_nul (l : list ascii) : NUL ∉ until_nul l.
Proof.
  induction l as [|c l IH]; simpl; [apply not_elem_of_nil|].
  destruct (decide (c = NUL)); [apply not_elem_of_nil|].
  apply not_elem_of_cons. done.
Qed.

Lemma until_nul_split (l rest : list ascii) :
  exists post, l ++ NUL :: rest = until_nul l ++ NUL :: post.
Proof.
  induction l as [|c l [post IH]]; simpl.
  - by exists rest.
  - destruct (decide (c = NUL)) as [->|].
    + by exists (l ++ NUL :: rest).
    + exists post. by rewrite IH.
Qed.

Lemma sample_of_spec (payload : list ascii) (m : memory) :
  length (buffer m) = BUFFER_SIZE ->
  exists m',
    sample_of payload m = Some (record_value payload, m') /\
    length (buffer m') = BUFFER_SIZE.
Proof.
  intros Hm. unfold sample_of, record_value, deliver. cbv zeta.
  rewrite Nat2Z.id.
  set (data := take (BUFFER_SIZE - 1) payload).
  assert (Hn : (length data < BUFFER_SIZE)%nat).
  { unfold data. rewrite length_take. unfold BUFFER_SIZE. lia. }
  destruct (lookup_lt_is_Some_2 (buffer m) (length data)) as [y Hy]; [lia|].
  rewrite (drop_S _ _ _ Hy). unfold store.
  destruct (decide _) as [_|Hn'].
  - rewrite insert_middle by done. cbn [mbind option_bind].
    destruct (until_nul_split data (drop (S (length data)) (buffer m)))
      as [post Hpost].
    rewrite Hpost.
    destruct (parse_record_spec (until_nul data) post (olds m)
                (until_nul_no_nul data)) as (m' & Hparse & Hlen).
    exists m'. split; [done|]. rewrite Hlen, <- Hpost.
    rewrite length_app. cbn [length]. rewrite length_drop. lia.
  - exfalso. apply Hn'. rewrite length_app. cbn [length]. lia.
Qed.

(** ** A double converted to [float] is a valid binary32 number *)

Lemma Zdigits2_div_pow2 (m n : Z) :
  0 <= n -> 0 < m / 2 ^ n -> Zdigits2 (m / 2 ^ n) = Zdigits2 m - n.
Proof.
  intros Hn Hq. pose proof (pow2_pos n Hn) as Hp.
  assert (Hm : 2 ^ n <= m).
  { destruct (Z.lt_ge_cases m (2 ^ n)) as [Hlt|]; [|done].
    destruct (Z.lt_ge_cases m 0).
    - assert (m / 2 ^ n < 0) by (apply Z.div_lt_upper_bound; lia). lia.
    - rewrite Z.div_small in Hq by lia. lia. }
  rewrite !Zdigits2_log2 by lia.
  rewrite <- Z.shiftr_div_pow2, Z.log2_shiftr by lia.
  assert (n <= Z.log2 m) by (apply Z.log2_le_pow2; lia). lia.
Qed.

Lemma binary_round_valid (s : bool) (m : positive) (e : Z) :
  F32.valid (binary_round F32.prec F32.emax s m e) = true.
Proof.
  unfold binary_round.
  pose proof (Zdigits2_bounds (Zpos m) eq_refl) as Hdig.
  change (Z.pos (digits2_pos m)) with (Zdigits2 (Zpos m)).
  set (dm := Zdigits2 (Zpos m)) in *.
  assert (Hdm : 1 <= dm) by (unfold dm; simpl; lia).
  set (F := fexp F32.prec F32.emax (dm + e)).
  assert (HF : F = Z.max (dm + e - 24) (-149))
    by (unfold F, fexp, emin, F32.prec, F32.emax; lia).
  destruct (shl_align_spec m e F) as [Hez HMz].
  destruct (shl_align m e F) as [mz ez]. cbn [fst snd] in Hez, HMz.
  assert (Hez' : ez <= e /\ ez <= F) by lia.
  pose proof (pow2_pos (e - ez) ltac:(lia)) as Hpz.
  rewrite <- Hez in HMz.
  assert (HdMz : Zdigits2 (Zpos mz) = dm + e - ez).
  { rewrite HMz, Zdigits2_log2 by lia.
    rewrite Z.log2_mul_pow2 by lia. unfold dm.
    rewrite (Zdigits2_log2 (Zpos m)) by lia. lia. }
  destruct (binary_round_aux_spec F32.prec F32.emax s (Zpos mz) ez loc_Exact
              ltac:(lia)) as (dl & Hdl & _ & ->).
  pose proof (shift_amount_sum (Zpos mz) ez) as Hsum. rewrite HdMz in Hsum.
  set (n1 := shift_amount F32.prec F32.emax (Zpos mz) ez) in *.
  assert (Hn1 : n1 = F - ez) by lia.
  replace (ez + n1) with F by lia.
  pose proof (pow2_pos n1 ltac:(lia)) as Hpn1.
  assert (HM1 : 0 <= Zpos mz / 2 ^ n1) by (apply Z.div_pos; lia).
  (* a normal result keeps 24 bits *)
  assert (Hnorm : -149 < F -> 2 ^ 23 <= Zpos mz / 2 ^ n1).
  { intros HFn. apply Z.div_le_lower_bound; [lia|].
    assert (2 ^ n1 * 2 ^ 23 = 2 ^ (dm - 1) * 2 ^ (e - ez)) as ->.
    { rewrite <- !Z.pow_add_r by lia. f_equal. lia. }
    rewrite HMz. nia. }
  set (M2 := Zpos mz / 2 ^ n1 + dl) in *.
  assert (HM2 : 0 <= M2 /\ (-149 < F -> 2 ^ 23 <= M2)) by (unfold M2; lia).
  clearbody M2. clear Hnorm HM1.
  unfold renorm.
  pose proof (shift_amount_sum M2 F) as Hsum2.
  set (n2 := shift_amount F32.prec F32.emax M2 F) in *.
  assert (Hn2 : 0 <= n2) by (unfold n2, shift_amount; lia).
  destruct (M2 / 2 ^ n2) as [|m3|m3] eqn:E3; [done| |].
  - destruct (Z.leb_spec (F + n2) (F32.emax - F32.prec)) as [Hle|]; [|done].
    unfold F32.valid, valid_binary, bounded, canonical_mantissa.
    apply andb_true_intro. split; [|by apply Z.leb_le].
    apply Z.eqb_eq.
    change (Z.pos (digits2_pos m3)) with (Zdigits2 (Zpos m3)).
    rewrite <- E3, Zdigits2_div_pow2 by lia.
    unfold fexp, emin, F32.prec, F32.emax.
    destruct (Z.eq_dec F (-149)) as [HF'|HF']; [lia|].
    assert (24 <= Zdigits2 M2) by (apply (Zdigits2_ge M2 23); lia).
    lia.
  - assert (0 <= M2 / 2 ^ n2) by (apply Z.div_pos; [lia|apply pow2_pos; lia]).
    lia.
Qed.

Lemma of_double_valid (x : spec_float) : F32.valid (F32.of_double x) = true.
Proof.
  destruct x as [s|s| |s m e]; try reflexivity. apply binary_round_valid.
Qed.

Lemma fields_value_valid (s : list ascii) :
  F32.valid (fst (fields_value s)) = true.
Proof.
  unfold fields_value. cbv zeta.
  destruct (skip_delims comma s); [reflexivity|].
  destruct (skip_delims comma _); apply of_double_valid.
Qed.

Lemma record_value_valid (payload : list ascii) :
  F32.valid (fst (record_value payload)) = true.
Proof. apply fields_value_valid. Qed.

(** ** One turn of the loop *)

Lemma run_bind_assoc {A B C} (m : proc A) (f : A -> proc B) (g : B -> proc C)
    (t : trace) :
  run ((m ≫= f) ≫= g) t = run (m ≫= (fun x => f x ≫= g)) t.
Proof.
  unfold run, mbind, proc_bind. destruct (m t) as [[a|c| |] t']; reflexivity.
Qed.

Lemma run_bind_done {A B} (m : proc A) (k : A -> proc B) (a : A) (t t' : trace) :
  run m t = (Done a, t') -> run (m ≫= k) t = run (k a) t'.
Proof. unfold run, mbind, proc_bind. intros ->. reflexivity. Qed.

(** The size check of [recvfrom] passes for the buffer of [main]. *)
Ltac buffer_fits Hm :=
  let Hn := fresh "Hn" in
  destruct (decide _) as [_|Hn];
  [|exfalso; apply Hn; rewrite Hm; unfold BUFFER_SIZE; lia].

(** A turn that receives a datagram renders the sample it stands for. *)
Lemma run_iteration_datagram (fd : Z) (payload : list ascii) (m : memory)
    (t : trace) :
  length (buffer m) = BUFFER_SIZE -> payload ≠ [] ->
  exists (m' : memory) (L : Z),
    length (buffer m') = BUFFER_SIZE /\
    sample_of payload m = Some (record_value payload, m') /\
    rms_bar_length (fst (record_value payload)) = Some L /\
    0 <= L <= BAR_WIDTH /\
    run (iteration fd (Datagram payload) m) t =
      (Done m',
       t ++ [Recvfrom fd 1023 (Z.of_nat (length (take 1023 payload)))]
         ++ repaint L (pitch_columns (snd (record_value payload)))
              (snd (record_value payload))).
Proof.
  intros Hm Hne.
  destruct (sample_of_spec payload m Hm) as (m' & Hsample & Hm').
  destruct (rms_bar_length_total _ (record_value_valid payload)) as (L & HL & HLr).
  exists m', L. split; [done|]. split; [done|]. split; [done|]. split; [done|].
  unfold iteration, recvfrom.
  buffer_fits Hm.
  change (BUFFER_SIZE - 1)%nat with 1023%nat in *.
  unfold sample_of, deliver in Hsample. cbv zeta in Hsample.
  change (BUFFER_SIZE - 1)%nat with 1023%nat in Hsample.
  rewrite Nat2Z.id in Hsample. unfold deliver. cbn [fst].
  set (data := take 1023 payload) in *.
  assert (Hpos : 0 < Z.of_nat (length data)).
  { destruct payload as [|c l]; [done|]. unfold data. cbn. lia. }
  rewrite run_bind_assoc, run_bind_emit, run_bind_ret.
  destruct (Z.ltb_spec 0 (Z.of_nat (length data))) as [_|]; [|lia].
  rewrite Nat2Z.id.
  destruct (store (data ++ drop (length data) (buffer m)) (length data) NUL)
    as [buf|]; [|done].
  cbn [mbind option_bind] in Hsample.
  rewrite run_bind_lift, Hsample, run_bind_lift.
  destruct (record_value payload) as [v p]. cbn [fst snd] in *.
  rewrite (run_bind_done _ _ tt _ _ (render_audio_run v p L _ HL HLr)).
  unfold run. cbn. rewrite <- app_assoc. reflexivity.
Qed.

Lemma run_iteration_failure (fd : Z) (m : memory) (t : trace) :
  length (buffer m) = BUFFER_SIZE ->
  run (iteration fd Failure m) t =
    (Done m, t ++ [Recvfrom fd 1023 (-1); Perror (bytes "recvfrom error")]).
Proof.
  intros Hm. unfold iteration, recvfrom.
  buffer_fits Hm.
  rewrite run_bind_assoc, run_bind_emit, run_bind_ret. cbv beta iota.
  change (0 <? -1) with false. change (-1 <? 0) with true. cbv iota.
  unfold perror. rewrite run_bind_emit. destruct m as [b o].
  rewrite <- app_assoc. reflexivity.
Qed.

Lemma run_iteration_empty (fd : Z) (m : memory) (t : trace) :
  length (buffer m) = BUFFER_SIZE ->
  run (iteration fd (Datagram []) m) t = (Done m, t ++ [Recvfrom fd 1023 0]).
Proof.
  intros Hm. unfold iteration, recvfrom.
  buffer_fits Hm.
  rewrite run_bind_assoc, run_bind_emit, run_bind_ret. cbv beta iota.
  destruct m as [b o]. reflexivity.
Qed.

(** ** What reaches the terminal *)

Lemma stdout_bytes_app (t1 t2 : trace) :
  stdout_bytes (t1 ++ t2) = stdout_bytes t1 ++ stdout_bytes t2.
Proof.
  induction t1 as [|a t1 IH]; [done|].
  destruct a; cbn [app stdout_bytes]; rewrite IH; try done.
  by rewrite app_assoc.
Qed.

Lemma stdout_bytes_putchars (n : nat) (c : ascii) :
  stdout_bytes (replicate n (Write [c])) = replicate n c.
Proof. induction n as [|n IH]; [done|]. cbn. by rewrite IH. Qed.

Lemma stdout_bytes_repaint (L P p : Z) :
  stdout_bytes (repaint L P p) = frame L P p.
Proof.
  unfold repaint, frame, bar_actions, bar.
  rewrite !stdout_bytes_app, !stdout_bytes_putchars.
  cbn [stdout_bytes]. rewrite !app_nil_r, <- !app_assoc. reflexivity.
Qed.

(** Every repaint appends the same frame, whatever was printed before. *)
Lemma render_audio_stdout (v : spec_float) (p : Z) (t : trace) :
  F32.valid v = true ->
  exists L : Z,
    rms_bar_length v = Some L /\ 0 <= L <= BAR_WIDTH /\
    fst (run (render_audio v p) t) = Done tt /\
    stdout_bytes (snd (run (render_audio v p) t))
      = stdout_bytes t ++ frame L (pitch_columns p) p.
Proof.
  intros Hv. destruct (rms_bar_length_total v Hv) as (L & HL & HLr).
  exists L. rewrite (render_audio_run v p L t HL HLr). cbn [fst snd].
  rewrite stdout_bytes_app, stdout_bytes_repaint. done.
Qed.

(** ** The loop never stops by itself *)

Lemma run_iteration_done (fd : Z) (a : arrival) (m : memory) (t : trace) :
  length (buffer m) = BUFFER_SIZE ->
  exists m' t',
    length (buffer m') = BUFFER_SIZE /\
    run (iteration fd a m) t = (Done m', t ++ t').
Proof.
  intros Hm. destruct a as [|[|c l]].
  - eexists m, _. split; [done|]. by apply run_iteration_failure.
  - eexists m, _. split; [done|]. by apply run_iteration_empty.
  - destruct (run_iteration_datagram fd (c :: l) m t Hm ltac:(done))
      as (m' & L & Hm' & _ & _ & _ & Hrun).
    eexists m', _. split; [done|]. exact Hrun.
Qed.

Lemma run_listen_cons (fd : Z) (a : arrival) (l : list arrival) (m m' : memory)
    (t t' : trace) :
  run (iteration fd a m) t = (Done m', t') ->
  run (listen fd (a :: l) m) t = run (listen fd l m') t'.
Proof. intros H. cbn [listen]. by apply run_bind_done. Qed.

Lemma listen_blocks (fd : Z) (l : list arrival) (m : memory) (t : trace) :
  length (buffer m) = BUFFER_SIZE ->
  fst (run (listen fd l m) t) = Blocked.
Proof.
  revert m t. induction l as [|a l IH]; intros m t Hm; [done|].
  destruct (run_iteration_done fd a m t Hm) as (m' & t' & Hm' & Hrun).
  rewrite (run_listen_cons _ _ _ _ _ _ _ Hrun). by apply IH.
Qed.

(** ** Start-up *)

Lemma run_main_socket_failure (w : world) (t : trace) :
  socket_ret w < 0 ->
  run (main w) t =
    (Exited EXIT_FAILURE,
     t ++ [Write greeting; Socket (socket_ret w);
           Perror (bytes "socket creation failed"); Exit EXIT_FAILURE]).
Proof.
  intros H. unfold main, socket, printf, perror.
  rewrite run_bind_emit, run_bind_assoc, run_bind_emit, run_bind_ret.
  destruct (Z.ltb_spec (socket_ret w) 0); [|lia].
  rewrite !run_bind_assoc, run_bind_emit.
  unfold run, exit, mbind, proc_bind. rewrite <- !app_assoc. reflexivity.
Qed.

Lemma run_main_bind_failure (w : world) (t : trace) :
  0 <= socket_ret w -> bind_ret w < 0 ->
  run (main w) t =
    (Exited EXIT_FAILURE,
     t ++ [Write greeting; Socket (socket_ret w);
           Bind (socket_ret w) PORT (bind_ret w);
           Perror (bytes "bind failed"); Close (socket_ret w);
           Exit EXIT_FAILURE]).
Proof.
  intros Hs Hb. unfold main, socket, bind, printf, perror, close.
  rewrite run_bind_emit, run_bind_assoc, run_bind_emit, run_bind_ret.
  destruct (Z.ltb_spec (socket_ret w) 0); [lia|].
  rewrite run_bind_ret, run_bind_assoc, run_bind_emit, run_bind_ret.
  destruct (Z.ltb_spec (bind_ret w) 0); [|lia].
  rewrite !run_bind_assoc, run_bind_emit, run_bind_assoc, run_bind_emit.
  unfold run, exit, mbind, proc_bind. rewrite <- !app_assoc. reflexivity.
Qed.

Lemma run_main_listen (w : world) (t : trace) :
  0 <= socket_ret w -> 0 <= bind_ret w ->
  run (main w) t =
    run (listen (socket_ret w) (arrivals w) (stack w))
      (t ++ [Write greeting; Socket (socket_ret w);
             Bind (socket_ret w) PORT (bind_ret w);
             Write (bytes "C Visualiser listening on port 12345" ++ newline)]).
Proof.
  intros Hs Hb. unfold main, socket, bind, printf.
  rewrite run_bind_emit, run_bind_assoc, run_bind_emit, run_bind_ret.
  destruct (Z.ltb_spec (socket_ret w) 0); [lia|].
  rewrite run_bind_ret, run_bind_assoc, run_bind_emit, run_bind_ret.
  destruct (Z.ltb_spec (bind_ret w) 0); [lia|].
  rewrite run_bind_ret, run_bind_emit. rewrite <- !app_assoc. reflexivity.
Qed.

(** ** The renderer: claims C1, C2 and C9 *)





Lemma not_minus_in_uint (d : Decimal.uint) :
  "-"%char ∉ bytes (NilEmpty.string_of_uint d).
Proof.
  induction d; cbn; try apply not_elem_of_nil;
    apply not_elem_of_cons; (split; [discriminate|exact IHd]).
Qed.

Lemma decimal_unsigned (z : Z) : 0 <= z -> "-"%char ∉ decimal z.
Proof.
  intros Hz. unfold decimal. destruct z as [|q|q]; try lia.
  - cbn. apply not_elem_of_cons. split; [discriminate|apply not_elem_of_nil].
  - unfold Z.to_int, NilZero.string_of_int, NilZero.string_of_uint.
    destruct (Pos.to_uint q) eqn:E; try (rewrite <- E; apply not_minus_in_uint).
    cbn. apply not_elem_of_cons. split; [discriminate|apply not_elem_of_nil].
Qed.

(** [%d] of a number that is not negative prints its decimal digits: digits
    only, which read back give the number, without a leading zero. *)
Lemma uint_digits (d : Decimal.uint) :
  forallb is_digit (bytes (NilEmpty.string_of_uint d)) = true.
Proof.
  induction d; cbn [NilEmpty.string_of_uint bytes list_ascii_of_string forallb];
    try done; by rewrite IHd.
Qed.

Lemma uint_value_acc (d : Decimal.uint) (acc : positive) :
  fold_left (fun acc c => acc * 10 + (code c - 48))
    (bytes (NilEmpty.string_of_uint d)) (Zpos acc)
  = Zpos (Pos.of_uint_acc d acc).
Proof.
  revert acc. induction d; intros acc;
    cbn [NilEmpty.string_of_uint bytes list_ascii_of_string fold_left Pos.of_uint_acc];
    try done.
  all: match goal with
    | |- fold_left _ _ (_ + (code ?c - 48)) = Z.pos (Pos.of_uint_acc _ ?q) =>
        replace (Z.pos acc * 10 + (code c - 48)) with (Z.pos q)
          by (change (code c) with (Z.of_N (N_of_ascii c)); cbn; lia);
        apply IHd
    end.
Qed.

Lemma uint_value (d : Decimal.uint) :
  digits_value (bytes (NilEmpty.string_of_uint d)) = Z.of_N (Pos.of_uint d).
Proof.
  unfold digits_value. induction d;
    cbn [NilEmpty.string_of_uint bytes list_ascii_of_string fold_left Pos.of_uint];
    try done.
  all: match goal with
    | |- fold_left _ _ (0 * 10 + (code ?c - 48))
         = Z.of_N (N.pos (Pos.of_uint_acc _ ?q)) =>
        change (0 * 10 + (code c - 48)) with (Z.pos q); apply uint_value_acc
    end.
Qed.

Lemma decimal_digits (z : Z) : 0 <= z -> forallb is_digit (decimal z) = true.
Proof.
  intros Hz. unfold decimal. destruct z as [|q|q]; try lia; [done|].
  unfold Z.to_int, NilZero.string_of_int, NilZero.string_of_uint.
  destruct (Pos.to_uint q) eqn:E; try (rewrite <- E; apply uint_digits). done.
Qed.

Lemma decimal_value (z : Z) : 0 <= z -> digits_value (decimal z) = z.
Proof.
  intros Hz. unfold decimal. destruct z as [|q|q]; try lia; [done|].
  unfold Z.to_int, NilZero.string_of_int, NilZero.string_of_uint.
  destruct (Pos.to_uint q) eqn:E;
    [by destruct (Unsigned.to_uint_nonnil q)|..];
    rewrite <- E, uint_value, DecimalPos.Unsigned.of_to; done.
Qed.

Lemma decimal_no_leading_zero (z : Z) : 0 < z -> head (decimal z) <> Some "0"%char.
Proof.
  intros Hz. unfold decimal. destruct z as [|q|q]; try lia.
  unfold Z.to_int, NilZero.string_of_int, NilZero.string_of_uint.
  assert (Hn : Decimal.unorm (Pos.to_uint q) = Pos.to_uint q).
  { rewrite <- DecimalPos.Unsigned.to_of, DecimalPos.Unsigned.of_to. done. }
  destruct (Pos.to_uint q) eqn:E; try done.
  exfalso. unfold Decimal.unorm in Hn.
  destruct (Decimal.nzhead (Decimal.D0 u)) eqn:Hz'; try congruence.
  - injection Hn as <-. by apply (Unsigned.to_uint_nonzero q).
  - by apply (nzhead_nonzero (Decimal.D0 u) u0).
Qed.

Lemma frame_pitch_line (L P p : Z) :
  exists before after,
    frame L P p =
      before ++ bytes "Pitch: " ++ replicate (Z.to_nat P) BAR_CHAR ++
      replicate (Z.to_nat (BAR_WIDTH - P)) " "%char ++
      bytes " " ++ decimal (Z.max p 0) ++ bytes " Hz" ++ newline ++ after.
Proof.
  exists (banner ++ bytes "RMS  : " ++ bar L ++ newline),
         (replicate 47 "-"%char ++ newline).
  unfold frame, bar, hz_text.
  replace (if 0 <? p then p else 0) with (Z.max p 0)
    by (destruct (Z.ltb_spec 0 p); lia).
  rewrite <- !app_assoc. reflexivity.
Qed.

(** C2.  For every integer pitch value [p], the number [P] of filled columns
    of the pitch bar, which the program computes in binary32 as the integer
    part of [((fminf (fmaxf (p, 100), 1000) - 100) / 900) * 40] when [p > 0]
    and as 0 otherwise, is exactly [(min (max p 100) 1000 - 100) * 40 / 900]
    rounded down when [p > 0], and 0 when [p <= 0]; the bar is printed as [P]
    filled characters and [40 - P] spaces after the label ["Pitch: "],
    followed by the number [max p 0] and [" Hz"].  The number is printed in
    decimal: digits only, with no minus sign and, when [p > 0], no leading
    zero, and which read back in base ten give [max p 0]; it is ["0"] when
    [p <= 0] and ["550"] when [p = 550].  [P = 40] when [p >= 1000] and
    [P = 20] when [p = 550]. *)
Theorem pitch_bar_columns (v : spec_float) (p : Z) (t : trace) :
  F32.valid v = true ->
  exists (P : Z) (before after : list ascii),
    int_of_float (F32.mul (scaled_pitch p) (F32.of_int BAR_WIDTH)) = Some P /\
    P = (if 0 <? p then (Z.min (Z.max p 100) 1000 - 100) * 40 / 900 else 0) /\
    0 <= P <= BAR_WIDTH /\
    stdout_bytes (snd (run (render_audio v p) t)) =
      before ++ bytes "Pitch: " ++ replicate (Z.to_nat P) BAR_CHAR ++
      replicate (Z.to_nat (BAR_WIDTH - P)) " "%char ++
      bytes " " ++ decimal (Z.max p 0) ++ bytes " Hz" ++ newline ++ after /\
    ("-"%char ∉ decimal (Z.max p 0)) /\
    (p <= 0 -> P = 0 /\ decimal (Z.max p 0) = bytes "0") /\
    (1000 <= p -> P = 40) /\
    (p = 550 -> P = 20) /\
    forallb is_digit (decimal (Z.max p 0)) = true /\
    digits_value (decimal (Z.max p 0)) = Z.max p 0 /\
    (0 < p -> head (decimal (Z.max p 0)) <> Some "0"%char) /\
    (p = 550 -> decimal (Z.max p 0) = bytes "550").
Proof.
  intros Hv.
  destruct (render_audio_stdout v p t Hv) as (L & HL & HLr & _ & Hout).
  destruct (frame_pitch_line L (pitch_columns p) p) as (before & after & Hf).
  exists (pitch_columns p), (stdout_bytes t ++ before), after.
  split; [apply pitch_bar_length_exact|]. split; [done|].
  split; [apply pitch_columns_range|].
  split; [by rewrite Hout, Hf, <- app_assoc|].
  split; [apply decimal_unsigned; lia|].
  unfold pitch_columns. split; [|split; [|split; [|split; [|split; [|split]]]]].
  - intros Hp. destruct (Z.ltb_spec 0 p); [lia|].
    replace (Z.max p 0) with 0 by lia. done.
  - intros Hp. destruct (Z.ltb_spec 0 p); [|lia].
    replace (Z.min (Z.max p 100) 1000) with 1000 by lia. done.
  - intros ->. done.
  - apply decimal_digits. lia.
  - apply decimal_value. lia.
  - intros Hp. apply decimal_no_leading_zero. lia.
  - intros ->. done.
Qed.

Lemma pitch_bar_columns_witness :
  exists (P : Z) (before after : list ascii),
    int_of_float (F32.mul (scaled_pitch 550) (F32.of_int BAR_WIDTH)) = Some P /\
    P = (if 0 <? 550 then (Z.min (Z.max 550 100) 1000 - 100) * 40 / 900 else 0) /\
    0 <= P <= BAR_WIDTH /\
    stdout_bytes (snd (run (render_audio zerof 550) [])) =
      before ++ bytes "Pitch: " ++ replicate (Z.to_nat P) BAR_CHAR ++
      replicate (Z.to_nat (BAR_WIDTH - P)) " "%char ++
      bytes " " ++ decimal (Z.max 550 0) ++ bytes " Hz" ++ newline ++ after /\
    ("-"%char ∉ decimal (Z.max 550 0)) /\
    (550 <= 0 -> P = 0 /\ decimal (Z.max 550 0) = bytes "0") /\
    (1000 <= 550 -> P = 40) /\
    (550 = 550 -> P = 20) /\
    forallb is_digit (decimal (Z.max 550 0)) = true /\
    digits_value (decimal (Z.max 550 0)) = Z.max 550 0 /\
    (0 < 550 -> head (decimal (Z.max 550 0)) <> Some "0"%char) /\
    (550 = 550 -> decimal (Z.max 550 0) = bytes "550").
Proof. apply (pitch_bar_columns zerof 550 []). reflexivity. Defined.

(** C9.  Rendering is deterministic: for every sample, every repaint
    appends the same bytes to the terminal, so rendering the sample twice
    prints the same frame twice (the clear-screen command is not part of
    the bytes). *)
Theorem render_idempotent (v : spec_float) (p : Z) :
  F32.valid v = true ->
  exists out : list ascii,
    forall t : trace,
      let t1 := snd (run (render_audio v p) t) in
      let t2 := snd (run (render_audio v p) t1) in
      fst (run (render_audio v p) t) = Done tt /\
      fst (run (render_audio v p) t1) = Done tt /\
      stdout_bytes t1 = stdout_bytes t ++ out /\
      stdout_bytes t2 = stdout_bytes t1 ++ out.
Proof.
  intros Hv. destruct (rms_bar_length_total v Hv) as (L & HL & HLr).
  exists (frame L (pitch_columns p) p). intros t. cbv zeta.
  rewrite !(render_audio_run v p L _ HL HLr). cbn [fst snd].
  rewrite !stdout_bytes_app, !stdout_bytes_repaint. done.
Qed.

Lemma render_idempotent_witness :
  exists out : list ascii,
    forall t : trace,
      let t1 := snd (run (render_audio (F32.of_ratio 1 10) 200) t) in
      let t2 := snd (run (render_audio (F32.of_ratio 1 10) 200) t1) in
      fst (run (render_audio (F32.of_ratio 1 10) 200) t) = Done tt /\
      fst (run (render_audio (F32.of_ratio 1 10) 200) t1) = Done tt /\
      stdout_bytes t1 = stdout_bytes t ++ out /\
      stdout_bytes t2 = stdout_bytes t1 ++ out.
Proof. apply (render_idempotent (F32.of_ratio 1 10) 200). reflexivity. Defined.

(** ** The receiver: claims C7 and C8 *)

(** C7.  A failure of [socket] and a failure of [bind] are fatal: the
    program prints a diagnostic with [perror] and exits with the non-zero
    status [EXIT_FAILURE]; nothing is received before that, whatever
    datagrams are waiting, and after a failed [bind] the socket is closed
    before the exit. *)
Theorem startup_failures_fatal (w : world) :
  EXIT_FAILURE <> 0 /\
  (socket_ret w < 0 ->
   run (main w) [] =
     (Exited EXIT_FAILURE,
      [Write greeting; Socket (socket_ret w);
       Perror (bytes "socket creation failed"); Exit EXIT_FAILURE])) /\
  (0 <= socket_ret w -> bind_ret w < 0 ->
   run (main w) [] =
     (Exited EXIT_FAILURE,
      [Write greeting; Socket (socket_ret w);
       Bind (socket_ret w) PORT (bind_ret w);
       Perror (bytes "bind failed"); Close (socket_ret w);
       Exit EXIT_FAILURE])).
Proof.
  split; [done|]. split.
  - intros H. by rewrite run_main_socket_failure.
  - intros Hs Hb. by rewrite run_main_bind_failure.
Qed.

Lemma startup_failures_fatal_witness :
  run (main {| socket_ret := -1; bind_ret := 0;
               arrivals := [Datagram (bytes "0.1,200")];
               stack := stale_memory |}) [] =
    (Exited EXIT_FAILURE,
     [Write greeting; Socket (-1);
      Perror (bytes "socket creation failed"); Exit EXIT_FAILURE]) /\
  run (main {| socket_ret := 3; bind_ret := -1;
               arrivals := [Datagram (bytes "0.1,200")];
               stack := stale_memory |}) [] =
    (Exited EXIT_FAILURE,
     [Write greeting; Socket 3; Bind 3 PORT (-1);
      Perror (bytes "bind failed"); Close 3; Exit EXIT_FAILURE]).
Proof.
  split.
  - apply (startup_failures_fatal
             {| socket_ret := -1; bind_ret := 0;
                arrivals := [Datagram (bytes "0.1,200")];
                stack := stale_memory |}).
    cbn. lia.
  - apply (startup_failures_fatal
             {| socket_ret := 3; bind_ret := -1;
                arrivals := [Datagram (bytes "0.1,200")];
                stack := stale_memory |});
      cbn; lia.
Defined.

(** C8.  A [recvfrom] that fails is reported with [perror] and the loop
    goes on with the next [recvfrom]: nothing is parsed or rendered and the
    memory is unchanged; a datagram of length zero is skipped with no
    diagnostic at all; and the loop never ends the process, whatever
    arrives. *)
Theorem receive_failures_skipped (fd : Z) (m : memory) (rest : list arrival)
    (t : trace) :
  length (buffer m) = BUFFER_SIZE ->
  run (listen fd (Failure :: rest) m) t =
    run (listen fd rest m)
      (t ++ [Recvfrom fd 1023 (-1); Perror (bytes "recvfrom error")]) /\
  run (listen fd (Datagram [] :: rest) m) t =
    run (listen fd rest m) (t ++ [Recvfrom fd 1023 0]) /\
  (forall l : list arrival, fst (run (listen fd l m) t) = Blocked).
Proof.
  intros Hm. split; [|split].
  - apply run_listen_cons. by apply run_iteration_failure.
  - apply run_listen_cons. by apply run_iteration_empty.
  - intros l. by apply listen_blocks.
Qed.

Lemma receive_failures_skipped_witness :
  run (listen 3 (Failure :: [Datagram []]) stale_memory) [] =
    run (listen 3 [Datagram []] stale_memory)
      ([] ++ [Recvfrom 3 1023 (-1); Perror (bytes "recvfrom error")]) /\
  run (listen 3 (Datagram [] :: [Datagram []]) stale_memory) [] =
    run (listen 3 [Datagram []] stale_memory) ([] ++ [Recvfrom 3 1023 0]) /\
  (forall l : list arrival, fst (run (listen 3 l stale_memory) []) = Blocked).
Proof.
  apply (receive_failures_skipped 3
           stale_memory
           [Datagram []] []).
  reflexivity.
Defined.

(** ** The parser: claims C3, C4, C5, C6 and C10 *)

Lemma int_of_long_in_int (z : Z) : in_int (int_of_long z) = true.
Proof.
  unfold in_int, int_of_long, INT_MIN, INT_MAX.
  pose proof (Z.mod_pos_bound (z + 2 ^ 31) (2 ^ 32) eq_refl).
  apply andb_true_intro. split; apply Z.leb_le; lia.
Qed.

Lemma fields_value_in_int (s : list ascii) : in_int (snd (fields_value s)) = true.
Proof.
  unfold fields_value. cbv zeta.
  destruct (skip_delims comma s); [reflexivity|].
  destruct (skip_delims comma _); [reflexivity|apply int_of_long_in_int].
Qed.

(** The parser gives the sample [x] for a payload whose text stands for [x],
    whatever the buffer held before. *)
Lemma sample_of_value (payload : list ascii) (m : memory) (x : spec_float * Z) :
  length (buffer m) = BUFFER_SIZE -> record_value payload = x ->
  exists m', sample_of payload m = Some (x, m').
Proof.
  intros Hm <-. destruct (sample_of_spec payload m Hm) as (m' & H & _).
  by exists m'.
Qed.

(** C3.  The payload ["0.1,200"] is parsed to loudness 0.1f and pitch 200;
    the payload ["0.3"], which has no comma, to loudness 0.3f and
    pitch 0. *)
Theorem parse_well_formed (m : memory) :
  length (buffer m) = BUFFER_SIZE ->
  (exists m', sample_of (bytes "0.1,200") m = Some (F32.of_ratio 1 10, 200, m')) /\
  (exists m', sample_of (bytes "0.3") m = Some (F32.of_ratio 3 10, 0, m')).
Proof.
  intros Hm. split; apply sample_of_value; done || (vm_compute; reflexivity).
Qed.

Lemma parse_well_formed_witness :
  (exists m', sample_of (bytes "0.1,200") stale_memory = Some (F32.of_ratio 1 10, 200, m')) /\
  (exists m', sample_of (bytes "0.3") stale_memory = Some (F32.of_ratio 3 10, 0, m')).
Proof.
  apply (parse_well_formed stale_memory).
  reflexivity.
Defined.

(** C4.  The parser never fails: for every payload and every content of
    the buffer it produces a sample, a valid float and an [int], with no
    undefined behaviour, and the turn of the loop that received the payload
    completes; the payload ["abc,xyz"] gives loudness 0.0 and pitch 0. *)
Theorem parse_never_fails (payload : list ascii) (m : memory) :
  length (buffer m) = BUFFER_SIZE ->
  (exists v p m',
      sample_of payload m = Some (v, p, m') /\
      F32.valid v = true /\ in_int p = true /\
      length (buffer m') = BUFFER_SIZE) /\
  (forall fd t, exists m' t',
      run (iteration fd (Datagram payload) m) t = (Done m', t')) /\
  (exists m', sample_of (bytes "abc,xyz") m = Some (zerof, 0, m')).
Proof.
  intros Hm. split; [|split].
  - destruct (sample_of_spec payload m Hm) as (m' & H & Hm').
    exists (fst (record_value payload)), (snd (record_value payload)), m'.
    rewrite <- surjective_pairing. split; [done|].
    split; [apply record_value_valid|]. split; [apply fields_value_in_int|done].
  - intros fd t.
    destruct (run_iteration_done fd (Datagram payload) m t Hm)
      as (m' & t' & _ & H).
    by exists m', (t ++ t').
  - apply sample_of_value; [done|]. vm_compute. reflexivity.
Qed.

Lemma parse_never_fails_witness :
  (exists v p m',
      sample_of (bytes "abc,xyz") stale_memory = Some (v, p, m') /\
      F32.valid v = true /\ in_int p = true /\
      length (buffer m') = BUFFER_SIZE) /\
  (forall fd t, exists m' t',
      run (iteration fd (Datagram (bytes "abc,xyz")) stale_memory) t = (Done m', t')) /\
  (exists m', sample_of (bytes "abc,xyz") stale_memory = Some (zerof, 0, m')).
Proof.
  apply (parse_never_fails (bytes "abc,xyz")
           stale_memory).
  reflexivity.
Defined.

Lemma until_nul_app (t x : list ascii) :
  NUL ∉ t -> until_nul (t ++ x) = t ++ until_nul x.
Proof.
  induction t as [|c t IH]; intros Ht; [done|].
  apply not_elem_of_cons in Ht as [Hc Ht]. cbn.
  destruct (decide (c = NUL)); [congruence|]. by rewrite IH.
Qed.

Lemma skip_delims_comma (s : list ascii) :
  skip_delims comma (","%char :: s) = skip_delims comma s.
Proof. reflexivity. Qed.

Lemma is_field_inv (t : list ascii) :
  is_field t = true -> t ≠ [] /\ (","%char ∉ t) /\ (NUL ∉ t).
Proof.
  destruct t as [|c0 t0]; [done|]. unfold is_field. intros Ht0.
  split; [done|]. revert Ht0. generalize (c0 :: t0). intros t Ht.
  induction t as [|c t IH]; [split; apply not_elem_of_nil|].
  cbn in Ht. apply andb_prop in Ht as [Hc Ht].
  apply andb_prop in Hc as [Hc1 Hc2].
  apply negb_true_iff, bool_decide_eq_false in Hc1.
  apply negb_true_iff, bool_decide_eq_false in Hc2.
  destruct (IH Ht) as [IH1 IH2].
  split; apply not_elem_of_cons; split; congruence || done.
Qed.

Lemma lead_out_field (t x : list ascii) :
  ","%char ∉ t -> x = [] \/ (exists x', x = ","%char :: x') ->
  lead_out comma (t ++ x) = length t.
Proof.
  intros Ht Hx. induction t as [|c t IH].
  - destruct Hx as [->|[x' ->]]; reflexivity.
  - apply not_elem_of_cons in Ht as [Hc Ht]. cbn.
    rewrite bool_decide_eq_false_2.
    + by rewrite IH.
    + intros Hin. apply list_elem_of_singleton in Hin. congruence.
Qed.

Lemma skip_delims_field (t x : list ascii) :
  t ≠ [] -> ","%char ∉ t -> skip_delims comma (t ++ x) = t ++ x.
Proof.
  intros Hne Ht. destruct t as [|c t]; [done|].
  apply not_elem_of_cons in Ht as [Hc Ht]. unfold skip_delims. cbn.
  rewrite bool_decide_eq_false_2; [done|].
  intros Hin. apply list_elem_of_singleton in Hin. congruence.
Qed.

(** Two non-empty fields and whatever follows the second: only the two
    fields count. *)
Lemma fields_value_two_fields (t1 t2 x : list ascii) :
  is_field t1 = true -> is_field t2 = true ->
  x = [] \/ (exists x', x = ","%char :: x') ->
  fields_value (t1 ++ ","%char :: t2 ++ x)
  = (F32.of_double (strtod t1), int_of_long (strtol t2)).
Proof.
  intros (Hn1 & Hc1 & _)%is_field_inv (Hn2 & Hc2 & _)%is_field_inv Hx.
  assert (Htok1 : token comma (t1 ++ ","%char :: t2 ++ x) = t1).
  { unfold token. rewrite lead_out_field by eauto. apply take_app_length. }
  assert (Haft1 : after_token comma (t1 ++ ","%char :: t2 ++ x)
                  = ","%char :: t2 ++ x).
  { unfold after_token. rewrite lead_out_field by eauto. apply drop_app_length. }
  assert (Htok2 : token comma (t2 ++ x) = t2).
  { unfold token. rewrite lead_out_field by done. apply take_app_length. }
  unfold fields_value. cbv zeta.
  rewrite (skip_delims_field t1) by done. rewrite Htok1, Haft1. cbn [tail].
  rewrite (skip_delims_field t2) by done. rewrite Htok2.
  destruct t1 as [|a1 t1]; [done|]. destruct t2 as [|a2 t2]; [done|].
  reflexivity.
Qed.

Lemma record_value_short (payload : list ascii) :
  (length payload <= 1023)%nat ->
  record_value payload = fields_value (until_nul payload).
Proof.
  intros H. unfold record_value. change (BUFFER_SIZE - 1)%nat with 1023%nat.
  by rewrite take_ge.
Qed.

Lemma record_value_after_comma (payload : list ascii) :
  record_value (","%char :: payload) = record_value (take 1022 payload).
Proof.
  unfold record_value. change (BUFFER_SIZE - 1)%nat with 1023%nat.
  change (take 1023 (","%char :: payload)) with (","%char :: take 1022 payload).
  rewrite take_take. change (1023 `min` 1022)%nat with 1022%nat.
  cbn [until_nul]. destruct (decide (","%char = NUL)); [done|].
  unfold fields_value. by rewrite skip_delims_comma.
Qed.

Lemma record_value_two_fields (t1 t2 rest : list ascii) :
  is_field t1 = true -> is_field t2 = true ->
  (length t1 + length t2 + 2 <= 1023)%nat ->
  record_value (t1 ++ ","%char :: t2 ++ ","%char :: rest)
  = (F32.of_double (strtod t1), int_of_long (strtol t2)).
Proof.
  intros H1 H2 Hlen.
  destruct (is_field_inv t1 H1) as (_ & _ & Hz1).
  destruct (is_field_inv t2 H2) as (_ & _ & Hz2).
  unfold record_value. change (BUFFER_SIZE - 1)%nat with 1023%nat.
  replace (t1 ++ ","%char :: t2 ++ ","%char :: rest)
    with ((t1 ++ ","%char :: t2 ++ [","%char]) ++ rest)
    by (rewrite <- !app_assoc; cbn; by rewrite <- app_assoc).
  rewrite take_app, (take_ge (t1 ++ _))
    by (rewrite !length_app; cbn [length]; rewrite length_app; cbn [length]; lia).
  rewrite <- !app_assoc. cbn [app]. rewrite <- app_assoc. cbn [app].
  rewrite until_nul_app by done. cbn [until_nul].
  destruct (decide (","%char = NUL)); [done|].
  rewrite until_nul_app by done. cbn [until_nul].
  destruct (decide (","%char = NUL)); [done|].
  apply fields_value_two_fields; eauto.
Qed.

Lemma record_value_two_fields_only (t1 t2 : list ascii) :
  is_field t1 = true -> is_field t2 = true ->
  (length t1 + length t2 + 2 <= 1023)%nat ->
  record_value (t1 ++ ","%char :: t2)
  = (F32.of_double (strtod t1), int_of_long (strtol t2)).
Proof.
  intros H1 H2 Hlen.
  destruct (is_field_inv t1 H1) as (_ & _ & Hz1).
  destruct (is_field_inv t2 H2) as (_ & _ & Hz2).
  rewrite record_value_short by (rewrite length_app; cbn [length]; lia).
  rewrite until_nul_app by done. cbn [until_nul].
  destruct (decide (","%char = NUL)); [done|].
  rewrite <- (app_nil_r t2) at 1. rewrite until_nul_app by done. cbn [until_nul].
  apply fields_value_two_fields; auto.
Qed.

(** C5, as stated, fails: the payload [",200"] is parsed to loudness 200.0
    and pitch 0, not to loudness 0.0 and pitch 200. *)
Lemma leading_delimiter_counterexample :
  fst <$> sample_of (bytes ",200") stale_memory = Some (F32.of_ratio 200 1, 0) /\
  fst <$> sample_of (bytes ",200") stale_memory <> Some (zerof, 200).
Proof. vm_compute. split; [reflexivity|discriminate]. Qed.

(** C5, amended.  [strtok] skips the delimiter that starts a payload: every
    payload [","] followed by [payload] is parsed exactly as the first 1022
    bytes of [payload] are (the buffer takes 1023 bytes of a datagram), so
    exactly as [payload] itself when that has at most 1022 bytes: the field
    after the delimiter is parsed as the loudness, not as the pitch.
    [",200"] gives loudness 200.0 and pitch 0, and [","] gives loudness 0.0
    and pitch 0. *)
Theorem parse_leading_delimiter (payload : list ascii) (m : memory) :
  length (buffer m) = BUFFER_SIZE ->
  (exists x m1 m2,
      sample_of (","%char :: payload) m = Some (x, m1) /\
      sample_of (take 1022 payload) m = Some (x, m2)) /\
  ((length payload <= 1022)%nat ->
   exists x m1 m2,
      sample_of (","%char :: payload) m = Some (x, m1) /\
      sample_of payload m = Some (x, m2)) /\
  (exists m', sample_of (bytes ",200") m = Some (F32.of_ratio 200 1, 0, m')) /\
  (exists m', sample_of (bytes ",") m = Some (zerof, 0, m')).
Proof.
  intros Hm.
  assert (Hcut : exists x m1 m2,
      sample_of (","%char :: payload) m = Some (x, m1) /\
      sample_of (take 1022 payload) m = Some (x, m2)).
  { destruct (sample_of_value (","%char :: payload) m
                (record_value (take 1022 payload)) Hm
                (record_value_after_comma payload)) as [m1 H1].
    destruct (sample_of_value (take 1022 payload) m
                (record_value (take 1022 payload)) Hm eq_refl) as [m2 H2].
    by exists (record_value (take 1022 payload)), m1, m2. }
  split; [exact Hcut|]. split; [|split].
  - intros Hlen. by rewrite take_ge in Hcut.
  - apply sample_of_value; [done|]. vm_compute. reflexivity.
  - apply sample_of_value; [done|]. vm_compute. reflexivity.
Qed.

Lemma parse_leading_delimiter_witness :
  (exists x m1 m2,
      sample_of (","%char :: bytes "0.25,440") stale_memory = Some (x, m1) /\
      sample_of (take 1022 (bytes "0.25,440")) stale_memory = Some (x, m2)) /\
  ((length (bytes "0.25,440") <= 1022)%nat ->
   exists x m1 m2,
      sample_of (","%char :: bytes "0.25,440") stale_memory = Some (x, m1) /\
      sample_of (bytes "0.25,440") stale_memory = Some (x, m2)) /\
  (exists m', sample_of (bytes ",200") stale_memory = Some (F32.of_ratio 200 1, 0, m')) /\
  (exists m', sample_of (bytes ",") stale_memory = Some (zerof, 0, m')).
Proof.
  apply (parse_leading_delimiter (bytes "0.25,440") stale_memory).
  reflexivity.
Defined.

(** C6, as stated, fails on its second example: in ["0.1,,300"] the empty
    field is skipped and the pitch is 300, not 0. *)
Lemma extra_fields_counterexample :
  fst <$> sample_of (bytes "0.1,,300") stale_memory = Some (F32.of_ratio 1 10, 300) /\
  snd <$> (fst <$> sample_of (bytes "0.1,,300") stale_memory) <> Some 0.
Proof. vm_compute. split; [reflexivity|discriminate]. Qed.

(** C6, amended.  Only the first two non-empty fields are consulted: a
    payload [t1,t2,rest] with non-empty fields [t1] and [t2] is parsed as
    [t1,t2] alone, whatever [rest] is; ["0.1,200,999"] gives loudness 0.1f
    and pitch 200.  Empty fields are skipped, so in ["0.1,,300"] the pitch
    is 300. *)
Theorem parse_extra_fields (t1 t2 rest : list ascii) (m : memory) :
  length (buffer m) = BUFFER_SIZE ->
  is_field t1 = true -> is_field t2 = true ->
  (length t1 + length t2 + 2 <= 1023)%nat ->
  (exists x m1 m2,
      x = (F32.of_double (strtod t1), int_of_long (strtol t2)) /\
      sample_of (t1 ++ ","%char :: t2 ++ ","%char :: rest) m = Some (x, m1) /\
      sample_of (t1 ++ ","%char :: t2) m = Some (x, m2)) /\
  (exists m', sample_of (bytes "0.1,200,999") m = Some (F32.of_ratio 1 10, 200, m')) /\
  (exists m', sample_of (bytes "0.1,,300") m = Some (F32.of_ratio 1 10, 300, m')).
Proof.
  intros Hm H1 H2 Hlen. split; [|split].
  - destruct (sample_of_value _ m _ Hm (record_value_two_fields t1 t2 rest H1 H2 Hlen))
      as [m1 Hs1].
    destruct (sample_of_value _ m _ Hm (record_value_two_fields_only t1 t2 H1 H2 Hlen))
      as [m2 Hs2].
    by eexists _, m1, m2.
  - apply sample_of_value; [done|]. vm_compute. reflexivity.
  - apply sample_of_value; [done|]. vm_compute. reflexivity.
Qed.

Lemma parse_extra_fields_witness :
  (exists x m1 m2,
      x = (F32.of_double (strtod (bytes "0.1")), int_of_long (strtol (bytes "200"))) /\
      sample_of (bytes "0.1" ++ ","%char :: bytes "200" ++ ","%char :: bytes "999") stale_memory
        = Some (x, m1) /\
      sample_of (bytes "0.1" ++ ","%char :: bytes "200") stale_memory = Some (x, m2)) /\
  (exists m', sample_of (bytes "0.1,200,999") stale_memory = Some (F32.of_ratio 1 10, 200, m')) /\
  (exists m', sample_of (bytes "0.1,,300") stale_memory = Some (F32.of_ratio 1 10, 300, m')).
Proof.
  apply (parse_extra_fields (bytes "0.1") (bytes "200") (bytes "999")
           stale_memory).
  - reflexivity.
  - reflexivity.
  - reflexivity.
  - cbn. lia.
Defined.





























(** * Further properties of the program *)

(** ** The whole run *)

Lemma run_listen_trace (fd : Z) (l : list arrival) (m : memory) (t : trace) :
  length (buffer m) = BUFFER_SIZE ->
  run (listen fd l m) t = (Blocked, t ++ concat (turn_actions fd <$> l)).
Proof.
  revert m t. induction l as [|a l IH]; intros m t Hm.
  - cbn. by rewrite app_nil_r.
  - cbn [fmap list_fmap concat]. rewrite app_assoc.
    destruct a as [|[|c payload]].
    + rewrite (run_listen_cons _ _ _ _ _ _ _ (run_iteration_failure fd m t Hm)).
      by apply IH.
    + rewrite (run_listen_cons _ _ _ _ _ _ _ (run_iteration_empty fd m t Hm)).
      by apply IH.
    + destruct (run_iteration_datagram fd (c :: payload) m t Hm ltac:(done))
        as (m' & L & Hm' & _ & HL & _ & Hrun).
      rewrite (run_listen_cons _ _ _ _ _ _ _ Hrun).
      rewrite (IH m' _ Hm'). unfold turn_actions, rms_columns. rewrite HL.
      reflexivity.
Qed.

(** X1.  Once [socket] and [bind] have succeeded the run of [main] is
    fully determined by what arrives: the greeting, the two calls, the
    listening line, then the actions of one turn per arrival, in order; the
    process never exits and meets no undefined behaviour, it is blocked in
    [recvfrom] when the arrivals are used up. *)
Theorem main_trace (w : world) :
  0 <= socket_ret w -> 0 <= bind_ret w ->
  length (buffer (stack w)) = BUFFER_SIZE ->
  run (main w) [] =
    (Blocked,
     [Write greeting; Socket (socket_ret w);
      Bind (socket_ret w) PORT (bind_ret w); Write listening]
     ++ concat (turn_actions (socket_ret w) <$> arrivals w)).
Proof.
  intros Hs Hb Hm. rewrite (run_main_listen w [] Hs Hb).
  by rewrite run_listen_trace.
Qed.

Lemma main_trace_witness :
  run (main {| socket_ret := 3; bind_ret := 0;
               arrivals := [Failure; Datagram []; Datagram (bytes "0.1,200")];
               stack := stale_memory |}) [] =
    (Blocked,
     [Write greeting; Socket 3; Bind 3 PORT 0; Write listening]
     ++ concat (turn_actions 3 <$>
                  [Failure; Datagram []; Datagram (bytes "0.1,200")])).
Proof.
  apply (main_trace {| socket_ret := 3; bind_ret := 0;
                       arrivals := [Failure; Datagram []; Datagram (bytes "0.1,200")];
                       stack := stale_memory |}).
  - cbn. lia.
  - cbn. lia.
  - reflexivity.
Defined.

Lemma stdout_bytes_turn (fd : Z) (a : arrival) :
  stdout_bytes (turn_actions fd a) = turn_frame a.
Proof.
  destruct a as [|[|c payload]]; try reflexivity.
  unfold turn_actions, turn_frame. cbn [stdout_bytes].
  apply stdout_bytes_repaint.
Qed.

Lemma stdout_bytes_turns (fd : Z) (l : list arrival) :
  stdout_bytes (concat (turn_actions fd <$> l)) = concat (turn_frame <$> l).
Proof.
  induction l as [|a l IH]; [done|].
  cbn [fmap list_fmap concat].
  by rewrite stdout_bytes_app, stdout_bytes_turn, IH.
Qed.

(** X2.  What [main] prints on stdout after a successful start is the
    greeting, the listening line, and then one frame for every non-empty
    datagram, in the order of arrival; a failed [recvfrom] and an empty
    datagram print nothing, and the frame of a datagram depends on nothing
    but its payload. *)
Theorem main_stdout (w : world) :
  0 <= socket_ret w -> 0 <= bind_ret w ->
  length (buffer (stack w)) = BUFFER_SIZE ->
  stdout_bytes (snd (run (main w) [])) =
    greeting ++ listening ++ concat (turn_frame <$> arrivals w).
Proof.
  intros Hs Hb Hm.
  rewrite (run_main_listen w [] Hs Hb), run_listen_trace by done. cbn [snd].
  rewrite stdout_bytes_app, stdout_bytes_turns. cbn [app stdout_bytes].
  by rewrite app_nil_r, <- app_assoc.
Qed.

Lemma main_stdout_witness :
  stdout_bytes
    (snd (run (main {| socket_ret := 3; bind_ret := 0;
                       arrivals := [Datagram (bytes "0.2,550"); Failure;
                                    Datagram (bytes "0.4")];
                       stack := stale_memory |}) [])) =
    greeting ++ listening ++
    concat (turn_frame <$> [Datagram (bytes "0.2,550"); Failure;
                            Datagram (bytes "0.4")]).
Proof.
  apply (main_stdout {| socket_ret := 3; bind_ret := 0;
                        arrivals := [Datagram (bytes "0.2,550"); Failure;
                                     Datagram (bytes "0.4")];
                        stack := stale_memory |}).
  - cbn. lia.
  - cbn. lia.
  - reflexivity.
Defined.

Lemma stderr_lines_app (t1 t2 : trace) :
  stderr_lines (t1 ++ t2) = stderr_lines t1 ++ stderr_lines t2.
Proof.
  induction t1 as [|a t1 IH]; [done|].
  destruct a; cbn [app stderr_lines]; by rewrite IH.
Qed.

Lemma stderr_lines_writes (n : nat) (c : ascii) :
  stderr_lines (replicate n (Write [c])) = [].
Proof. induction n as [|n IH]; [done|]. cbn. exact IH. Qed.

Lemma stderr_lines_repaint (L P p : Z) : stderr_lines (repaint L P p) = [].
Proof.
  unfold repaint, bar_actions.
  rewrite !stderr_lines_app, !stderr_lines_writes. reflexivity.
Qed.

Lemma stderr_lines_turns (fd : Z) (l : list arrival) :
  stderr_lines (concat (turn_actions fd <$> l))
  = replicate (length (filter is_failure l)) (bytes "recvfrom error").
Proof.
  induction l as [|a l IH]; [done|].
  cbn [fmap list_fmap concat]. rewrite stderr_lines_app, IH.
  destruct a as [|[|c payload]]; try reflexivity.
  unfold turn_actions. cbn [stderr_lines]. rewrite stderr_lines_repaint.
  reflexivity.
Qed.

(** X3.  After a successful start the only diagnostics [main] ever sends to
    stderr are ["recvfrom error"], exactly one for each [recvfrom] that
    failed: no datagram, whatever its content, produces a diagnostic. *)
Theorem main_stderr (w : world) :
  0 <= socket_ret w -> 0 <= bind_ret w ->
  length (buffer (stack w)) = BUFFER_SIZE ->
  stderr_lines (snd (run (main w) [])) =
    replicate (length (filter is_failure (arrivals w))) (bytes "recvfrom error").
Proof.
  intros Hs Hb Hm.
  rewrite (run_main_listen w [] Hs Hb), run_listen_trace by done. cbn [snd].
  rewrite stderr_lines_app, stderr_lines_turns. reflexivity.
Qed.

Lemma main_stderr_witness :
  stderr_lines
    (snd (run (main {| socket_ret := 3; bind_ret := 0;
                       arrivals := [Datagram (bytes "abc,xyz"); Failure;
                                    Datagram []; Failure];
                       stack := stale_memory |}) [])) =
    replicate (length (filter is_failure
                         [Datagram (bytes "abc,xyz"); Failure; Datagram []; Failure]))
      (bytes "recvfrom error").
Proof.
  apply (main_stderr {| socket_ret := 3; bind_ret := 0;
                        arrivals := [Datagram (bytes "abc,xyz"); Failure;
                                     Datagram []; Failure];
                        stack := stale_memory |}).
  - cbn. lia.
  - cbn. lia.
  - reflexivity.
Defined.


(** ** The parser on arbitrary payloads *)

(** X4.  The buffer is reused from turn to turn and [strtok] keeps a
    pointer between calls, but neither leaks into the result: whatever the
    1024 bytes of the buffer and the saved pointer hold, a payload is parsed
    to the same sample, which is the value of its text. *)
Theorem parse_ignores_stale_memory (payload : list ascii) (m1 m2 : memory) :
  length (buffer m1) = BUFFER_SIZE -> length (buffer m2) = BUFFER_SIZE ->
  fst <$> sample_of payload m1 = Some (record_value payload) /\
  fst <$> sample_of payload m1 = fst <$> sample_of payload m2.
Proof.
  intros H1 H2.
  destruct (sample_of_spec payload m1 H1) as (m1' & -> & _).
  destruct (sample_of_spec payload m2 H2) as (m2' & -> & _).
  done.
Qed.

Lemma parse_ignores_stale_memory_witness :
  fst <$> sample_of (bytes "0.3") stale_memory = Some (record_value (bytes "0.3")) /\
  fst <$> sample_of (bytes "0.3") stale_memory
  = fst <$> sample_of (bytes "0.3")
              {| buffer := bytes "0.25,440" ++ replicate 1016 NUL; olds := Some 5%nat |}.
Proof.
  apply (parse_ignores_stale_memory (bytes "0.3") stale_memory
           {| buffer := bytes "0.25,440" ++ replicate 1016 NUL; olds := Some 5%nat |});
    reflexivity.
Defined.

Lemma until_nul_cut (a x : list ascii) : until_nul (a ++ NUL :: x) = until_nul a.
Proof.
  induction a as [|c a IH]; cbn.
  - by destruct (decide (NUL = NUL)).
  - destruct (decide (c = NUL)); [done|]. by rewrite IH.
Qed.

Lemma record_value_cut (a b : list ascii) :
  record_value (a ++ NUL :: b) = record_value a.
Proof.
  unfold record_value. change (BUFFER_SIZE - 1)%nat with 1023%nat.
  rewrite take_app. destruct (decide (length a < 1023)%nat) as [Hlt|Hge].
  - replace (1023 - length a)%nat with (S (1022 - length a)) by lia.
    cbn [take]. rewrite take_ge by lia. by rewrite until_nul_cut.
  - replace (1023 - length a)%nat with O by lia. cbn [take].
    by rewrite app_nil_r.
Qed.

(** X5.  A NUL byte inside a datagram ends the record: the bytes that
    follow it are never looked at, the sample is that of the bytes before
    it. *)
Theorem parse_stops_at_nul (a b : list ascii) (m : memory) :
  length (buffer m) = BUFFER_SIZE ->
  fst <$> sample_of (a ++ NUL :: b) m = fst <$> sample_of a m.
Proof.
  intros Hm.
  destruct (sample_of_spec (a ++ NUL :: b) m Hm) as (m1 & -> & _).
  destruct (sample_of_spec a m Hm) as (m2 & -> & _).
  cbn. by rewrite record_value_cut.
Qed.

Lemma parse_stops_at_nul_witness :
  fst <$> sample_of (bytes "0.1,20" ++ NUL :: bytes "0,999") stale_memory
  = fst <$> sample_of (bytes "0.1,20") stale_memory.
Proof.
  apply (parse_stops_at_nul (bytes "0.1,20") (bytes "0,999") stale_memory).
  reflexivity.
Defined.

Lemma skip_delims_commas (j : nat) (s : list ascii) :
  skip_delims comma (replicate j ","%char ++ s) = skip_delims comma s.
Proof.
  induction j as [|j IH]; [done|]. cbn [replicate app].
  by rewrite skip_delims_comma.
Qed.

Lemma fields_value_commas (j : nat) (s : list ascii) :
  fields_value (replicate j ","%char ++ s) = fields_value s.
Proof. unfold fields_value. by rewrite skip_delims_commas. Qed.

Lemma fields_value_runs (j k : nat) (t1 t2 x : list ascii) :
  is_field t1 = true -> is_field t2 = true ->
  x = [] \/ (exists x', x = ","%char :: x') ->
  fields_value (replicate j ","%char ++ t1 ++ replicate (S k) ","%char ++ t2 ++ x)
  = (F32.of_double (strtod t1), int_of_long (strtol t2)).
Proof.
  intros H1 H2 Hx. rewrite fields_value_commas.
  destruct (is_field_inv t1 H1) as (Hn1 & Hc1 & _).
  destruct (is_field_inv t2 H2) as (Hn2 & Hc2 & _).
  set (y := replicate k ","%char ++ t2 ++ x).
  change (replicate (S k) ","%char ++ t2 ++ x) with (","%char :: y).
  assert (Htok1 : token comma (t1 ++ ","%char :: y) = t1).
  { unfold token. rewrite lead_out_field by eauto. apply take_app_length. }
  assert (Haft1 : after_token comma (t1 ++ ","%char :: y) = ","%char :: y).
  { unfold after_token. rewrite lead_out_field by eauto. apply drop_app_length. }
  assert (Htok2 : token comma (t2 ++ x) = t2).
  { unfold token. rewrite lead_out_field by done. apply take_app_length. }
  unfold fields_value. cbv zeta.
  rewrite (skip_delims_field t1) by done. rewrite Htok1, Haft1. cbn [tail].
  unfold y. rewrite skip_delims_commas.
  rewrite (skip_delims_field t2) by done. rewrite Htok2.
  destruct t1 as [|a1 t1]; [done|]. destruct t2 as [|a2 t2]; [done|].
  reflexivity.
Qed.

Lemma no_nul_commas (j : nat) : NUL ∉ replicate j ","%char.
Proof.
  induction j as [|j IH]; [apply not_elem_of_nil|].
  apply not_elem_of_cons. done.
Qed.

(** X6.  Commas that start a payload are ignored and a run of commas
    separates like a single one: with non-empty fields [t1] and [t2] that
    hold no comma and no NUL byte and fit in the buffer, [,..,t1,..,t2]
    followed by nothing or by a comma and anything is parsed to the
    loudness of [t1] and the pitch of [t2]. *)
Theorem parse_comma_runs (j k : nat) (t1 t2 rest : list ascii) (m : memory) :
  length (buffer m) = BUFFER_SIZE ->
  is_field t1 = true -> is_field t2 = true ->
  (j + length t1 + S k + length t2 + 1 <= 1023)%nat ->
  let x := (F32.of_double (strtod t1), int_of_long (strtol t2)) in
  fst <$> sample_of (replicate j ","%char ++ t1 ++ replicate (S k) ","%char ++ t2) m
    = Some x /\
  fst <$> sample_of (replicate j ","%char ++ t1 ++ replicate (S k) ","%char ++ t2
                       ++ ","%char :: rest) m
    = Some x.
Proof.
  intros Hm H1 H2 Hlen x.
  destruct (is_field_inv t1 H1) as (_ & _ & Hz1).
  destruct (is_field_inv t2 H2) as (_ & _ & Hz2).
  pose proof (no_nul_commas j) as Hzj. pose proof (no_nul_commas (S k)) as Hzk.
  split.
  - destruct (sample_of_spec (replicate j ","%char ++ t1 ++
                              replicate (S k) ","%char ++ t2) m Hm) as (m' & -> & _).
    cbn [fmap option_fmap option_map fst]. f_equal.
    rewrite record_value_short
      by (rewrite !length_app, !length_replicate; lia).
    rewrite <- (app_nil_r t2) at 1.
    rewrite !until_nul_app by done. cbn [until_nul].
    by apply fields_value_runs; auto.
  - set (A := replicate j ","%char ++ t1 ++ replicate (S k) ","%char ++ t2).
    assert (HA : NUL ∉ A).
    { unfold A. rewrite !not_elem_of_app. done. }
    assert (HlenA : (length A + 1 <= 1023)%nat).
    { unfold A. rewrite !length_app, !length_replicate. lia. }
    replace (replicate j ","%char ++ t1 ++ replicate (S k) ","%char ++ t2
               ++ ","%char :: rest)
      with ((A ++ [","%char]) ++ rest)
      by (unfold A; rewrite <- !app_assoc; done).
    destruct (sample_of_spec ((A ++ [","%char]) ++ rest) m Hm) as (m' & -> & _).
    cbn [fmap option_fmap option_map fst]. f_equal.
    unfold record_value. change (BUFFER_SIZE - 1)%nat with 1023%nat.
    rewrite take_app, (take_ge (A ++ _))
      by (rewrite length_app; cbn [length]; lia).
    rewrite <- app_assoc. cbn [app].
    rewrite until_nul_app by done. cbn [until_nul].
    destruct (decide (","%char = NUL)); [done|].
    unfold A. rewrite <- !app_assoc.
    apply fields_value_runs; eauto.
Qed.

Lemma parse_comma_runs_witness :
  fst <$> sample_of (replicate 2 ","%char ++ bytes "0.1" ++ replicate 3 ","%char
                       ++ bytes "300") stale_memory
    = Some (F32.of_double (strtod (bytes "0.1")), int_of_long (strtol (bytes "300"))) /\
  fst <$> sample_of (replicate 2 ","%char ++ bytes "0.1" ++ replicate 3 ","%char
                       ++ bytes "300" ++ ","%char :: bytes "7,8") stale_memory
    = Some (F32.of_double (strtod (bytes "0.1")), int_of_long (strtol (bytes "300"))).
Proof.
  apply (parse_comma_runs 2 2 (bytes "0.1") (bytes "300") (bytes "7,8") stale_memory).
  - reflexivity.
  - reflexivity.
  - reflexivity.
  - cbn. lia.
Defined.

(** ** The two gauges *)

(** X7.  The pitch bar never shrinks when the pitch grows: for all integers
    [p <= q] the bar of [p] has at most as many filled columns as the bar of
    [q]. *)
Theorem pitch_bar_monotone (p q P Q : Z) :
  p <= q ->
  pitch_bar_length p = Some P -> pitch_bar_length q = Some Q ->
  P <= Q.
Proof.
  intros Hpq. rewrite !pitch_bar_length_exact. intros [= <-] [= <-].
  unfold pitch_columns.
  destruct (Z.ltb_spec 0 p), (Z.ltb_spec 0 q); try lia.
  - apply Z.div_le_mono; lia.
  - apply Z.div_pos; lia.
Qed.

Lemma pitch_bar_monotone_witness :
  pitch_bar_length 550 = Some 20 /\ pitch_bar_length 800 = Some 31 /\ 20 <= 31.
Proof.
  split; [vm_compute; reflexivity|]. split; [vm_compute; reflexivity|].
  apply (pitch_bar_monotone 550 800 20 31); [lia| |]; vm_compute; reflexivity.
Defined.

(** X8.  Each column of the pitch bar stands for 22.5 Hz above 100 Hz: for
    [1 <= k <= 40] the bar of [p] has at least [k] filled columns exactly
    when [p - 100 >= 22.5 * k].  So the bar is empty up to 122 Hz and full
    from 1000 Hz on. *)
Theorem pitch_bar_threshold (p k P : Z) :
  1 <= k <= BAR_WIDTH ->
  pitch_bar_length p = Some P ->
  (k <= P <-> 45 * k <= 2 * (p - 100)).
Proof.
  unfold BAR_WIDTH. intros Hk. rewrite pitch_bar_length_exact. intros [= <-].
  unfold pitch_columns. destruct (Z.ltb_spec 0 p); [|lia].
  set (x := Z.min (Z.max p 100) 1000 - 100).
  assert (Hx : 0 <= x <= 900) by (unfold x; lia).
  pose proof (Z.div_mod (x * 40) 900 ltac:(lia)) as Hdm.
  pose proof (Z.mod_pos_bound (x * 40) 900 ltac:(lia)) as Hmod.
  unfold x in *. lia.
Qed.

Lemma pitch_bar_threshold_witness :
  pitch_bar_length 123 = Some 1 /\ (1 <= 1 <-> 45 * 1 <= 2 * (123 - 100)).
Proof.
  split; [vm_compute; reflexivity|].
  apply (pitch_bar_threshold 123 1 1); [unfold BAR_WIDTH; lia|].
  vm_compute. reflexivity.
Defined.

Lemma length_bar (n : Z) : 0 <= n <= BAR_WIDTH -> length (bar n) = 40%nat.
Proof.
  unfold bar, BAR_WIDTH. intros Hn.
  rewrite length_app, !length_replicate. lia.
Qed.

(** X9.  The gauges have a fixed width: for every sample the loudness bar
    and the pitch bar are each exactly 40 columns wide, filled columns
    first, so with its 7-column label each bar is as wide as the rule of 47
    dashes that ends the frame. *)
Theorem frame_geometry (v : spec_float) (p : Z) (t : trace) :
  F32.valid v = true ->
  exists (L P : Z) (b1 b2 : list ascii),
    stdout_bytes (snd (run (render_audio v p) t)) =
      stdout_bytes t ++ banner ++
      bytes "RMS  : " ++ b1 ++ newline ++
      bytes "Pitch: " ++ b2 ++ hz_text p ++
      replicate 47 "-"%char ++ newline /\
    b1 = replicate (Z.to_nat L) BAR_CHAR ++ replicate (40 - Z.to_nat L) " "%char /\
    b2 = replicate (Z.to_nat P) BAR_CHAR ++ replicate (40 - Z.to_nat P) " "%char /\
    (Z.to_nat L <= 40)%nat /\ (Z.to_nat P <= 40)%nat /\
    length (bytes "RMS  : " ++ b1) = 47%nat /\
    length (bytes "Pitch: " ++ b2) = 47%nat.
Proof.
  intros Hv.
  destruct (render_audio_stdout v p t Hv) as (L & HL & HLr & _ & Hout).
  pose proof (pitch_columns_range p) as HPr.
  exists L, (pitch_columns p), (bar L), (bar (pitch_columns p)).
  unfold BAR_WIDTH in *.
  split; [|split; [|split; [|split; [|split; [|split]]]]].
  - rewrite Hout. reflexivity.
  - unfold bar, BAR_WIDTH. do 2 f_equal. lia.
  - unfold bar, BAR_WIDTH. do 2 f_equal. lia.
  - lia.
  - lia.
  - rewrite length_app, length_bar by (unfold BAR_WIDTH; lia). reflexivity.
  - rewrite length_app, length_bar by (unfold BAR_WIDTH; lia). reflexivity.
Qed.

Lemma frame_geometry_witness :
  exists (L P : Z) (b1 b2 : list ascii),
    stdout_bytes (snd (run (render_audio (F32.of_ratio 3 10) 123) [])) =
      stdout_bytes [] ++ banner ++
      bytes "RMS  : " ++ b1 ++ newline ++
      bytes "Pitch: " ++ b2 ++ hz_text 123 ++
      replicate 47 "-"%char ++ newline /\
    b1 = replicate (Z.to_nat L) BAR_CHAR ++ replicate (40 - Z.to_nat L) " "%char /\
    b2 = replicate (Z.to_nat P) BAR_CHAR ++ replicate (40 - Z.to_nat P) " "%char /\
    (Z.to_nat L <= 40)%nat /\ (Z.to_nat P <= 40)%nat /\
    length (bytes "RMS  : " ++ b1) = 47%nat /\
    length (bytes "Pitch: " ++ b2) = 47%nat.
Proof. apply (frame_geometry (F32.of_ratio 3 10) 123 []). reflexivity. Defined.

Lemma repaint_shape (L P p : Z) :
  exists ws : list (list ascii),
    repaint L P p = [System (bytes "clear")] ++ (Write <$> ws) ++ [Flush].
Proof.
  exists ([banner; bytes "RMS  : "] ++
          replicate (Z.to_nat L) [BAR_CHAR] ++
          replicate (Z.to_nat (BAR_WIDTH - L)) [" "%char] ++
          [newline; bytes "Pitch: "] ++
          replicate (Z.to_nat P) [BAR_CHAR] ++
          replicate (Z.to_nat (BAR_WIDTH - P)) [" "%char] ++
          [hz_text p] ++ replicate 47 ["-"%char] ++ [newline]).
  unfold repaint, bar_actions.
  rewrite !fmap_app, !fmap_replicate. cbn [fmap list_fmap app].
  repeat (rewrite <- app_assoc; cbn [app]). reflexivity.
Qed.

(** X10.  Every repaint follows the same protocol: it first clears the
    terminal with [system ("clear")], then only writes to stdout, and ends
    with [fflush (stdout)], so a frame is complete on the terminal before
    the next [recvfrom] can block. *)
Theorem render_protocol (v : spec_float) (p : Z) (t : trace) :
  F32.valid v = true ->
  exists ws : list (list ascii),
    run (render_audio v p) t =
      (Done tt, t ++ [System (bytes "clear")] ++ (Write <$> ws) ++ [Flush]).
Proof.
  intros Hv. destruct (rms_bar_length_total v Hv) as (L & HL & HLr).
  destruct (repaint_shape L (pitch_columns p) p) as [ws Hws].
  exists ws. by rewrite (render_audio_run v p L t HL HLr), Hws.
Qed.

Lemma render_protocol_witness :
  exists ws : list (list ascii),
    run (render_audio (F32.of_ratio 1 10) 0) [] =
      (Done tt, [] ++ [System (bytes "clear")] ++ (Write <$> ws) ++ [Flush]).
Proof. apply (render_protocol (F32.of_ratio 1 10) 0 []). reflexivity. Defined.
